(** * The streamed answer handler of the chat box (ChatBox.handleAsk)

    A shallow embedding of [handleAsk] from [src/components/ChatBox.js]
    and of [apiStream] from [src/config.js], together with executable
    models of the ECMAScript / WHATWG built-ins the handler calls
    ([String.prototype.includes], [split], [trim], [TextDecoder.decode]
    in streaming mode and [JSON.parse]).

    JavaScript strings are sequences of UTF-16 code units and are modelled
    as [list Z]; the bytes of a network chunk are [Byte.byte]. *)

From Stdlib Require Import String Ascii DecimalString.
From Stdlib.Strings Require Import Byte.
From Stdlib Require Import ZArith List Lia Bool.
Import ListNotations.
Open Scope Z_scope.

(* ===================================================================== *)
(** ** JavaScript strings *)
(* ===================================================================== *)

Module JS.

(** A string value: its UTF-16 code units. *)
Definition jsstring := list Z.

(** Code units of an ASCII literal of the source. *)
Definition lit (s : string) : jsstring :=
  map (fun a => Z.of_N (N_of_ascii a)) (list_ascii_of_string s).

Definition unit_eqb (a b : Z) : bool := a =? b.

Arguments lit s%_string.

(** A literal in which every apostrophe stands for a double quote (code
    unit 34), to write JSON text. *)
Definition litq (s : string) : jsstring :=
  map (fun c => if c =? 39 then 34 else c) (lit s).

Arguments litq s%_string.

(** [starts_with pat s]: the code units of [pat] are the first ones of [s]. *)
Fixpoint starts_with (pat s : jsstring) : bool :=
  match pat, s with
  | [], _ => true
  | p :: pat', c :: s' => unit_eqb p c && starts_with pat' s'
  | _ :: _, [] => false
  end.

(** [String.prototype.indexOf]: position of the first occurrence. *)
Fixpoint index_of (pat s : jsstring) : option nat :=
  if starts_with pat s then Some O
  else match s with
       | [] => None
       | _ :: s' => option_map S (index_of pat s')
       end.

(** [String.prototype.includes]. *)
Definition includes (s pat : jsstring) : bool :=
  match index_of pat s with Some _ => true | None => false end.

(** [String.prototype.split] with a non-empty separator: the pieces
    between successive non-overlapping occurrences, scanned left to right.
    Every round removes at least one code unit, so [S (length s)] rounds
    always suffice (lemma [split_unfold] below). *)
Fixpoint split_rounds (rounds : nat) (sep s : jsstring) : list jsstring :=
  match rounds with
  | O => [s]
  | S r =>
      match index_of sep s with
      | None => [s]
      | Some i => firstn i s :: split_rounds r sep (skipn (i + length sep) s)
      end
  end.

Definition split (s sep : jsstring) : list jsstring :=
  split_rounds (S (length s)) sep s.

(** WhiteSpace and LineTerminator code points, as [trim] strips them. *)
Definition is_space (c : Z) : bool :=
  (c =? 9) || (c =? 10) || (c =? 11) || (c =? 12) || (c =? 13) || (c =? 32)
  || (c =? 160) || (c =? 5760) || ((8192 <=? c) && (c <=? 8202))
  || (c =? 8232) || (c =? 8233) || (c =? 8239) || (c =? 8287)
  || (c =? 12288) || (c =? 65279).

Fixpoint trim_start (s : jsstring) : jsstring :=
  match s with
  | c :: s' => if is_space c then trim_start s' else s
  | [] => []
  end.

Definition trim_end (s : jsstring) : jsstring := rev (trim_start (rev s)).

(** [String.prototype.trim]. *)
Definition trim (s : jsstring) : jsstring := trim_end (trim_start s).

(** Truthiness of a string: only the empty string is falsy. *)
Definition truthy (s : jsstring) : bool :=
  match s with [] => false | _ :: _ => true end.

(** [Number.prototype.toString] on an integer, as a template literal
    renders [response.status]. *)
Definition number_to_string (n : Z) : jsstring :=
  lit (NilEmpty.string_of_int (Z.to_int n)).

End JS.

(* ===================================================================== *)
(** ** TextDecoder: the streaming UTF-8 decoder *)
(* ===================================================================== *)

Module TextDecoder.
Import JS.

(** State of the UTF-8 decoder between two bytes (WHATWG Encoding). *)
Record utf8_state := mk_utf8 {
  code_point : Z;
  bytes_seen : Z;
  bytes_needed : Z;
  lower_boundary : Z;
  upper_boundary : Z
}.

Definition utf8_initial : utf8_state :=
  mk_utf8 0 0 0 128 191.

(** A [TextDecoder] object: the decoder state kept by [{stream: true}]
    and the "BOM seen" flag. *)
Record decoder := mk_decoder {
  utf8 : utf8_state;
  bom_seen : bool
}.

(** [new TextDecoder()]. *)
Definition new_TextDecoder : decoder := mk_decoder utf8_initial false.

Definition REPLACEMENT : Z := 65533.

(** A byte read when no sequence is in progress. *)
Definition lead_byte (b : Z) : utf8_state * list Z :=
  if b <=? 127 then (utf8_initial, [b])
  else if (194 <=? b) && (b <=? 223) then
    (mk_utf8 (Z.land b 31) 0 1 128 191, [])
  else if (224 <=? b) && (b <=? 239) then
    (mk_utf8 (Z.land b 15) 0 2
       (if b =? 224 then 160 else 128) (if b =? 237 then 159 else 191), [])
  else if (240 <=? b) && (b <=? 244) then
    (mk_utf8 (Z.land b 7) 0 3
       (if b =? 240 then 144 else 128) (if b =? 244 then 143 else 191), [])
  else (utf8_initial, [REPLACEMENT]).

(** One step of the decoder: the scalar values it emits for a byte. A byte
    outside the expected range ends the sequence in progress with U+FFFD
    and is then read again as a lead byte. *)
Definition handler (st : utf8_state) (b : Z) : utf8_state * list Z :=
  if bytes_needed st =? 0 then lead_byte b
  else if negb ((lower_boundary st <=? b) && (b <=? upper_boundary st)) then
    let (st', out) := lead_byte b in (st', REPLACEMENT :: out)
  else
    let cp := Z.lor (Z.shiftl (code_point st) 6) (Z.land b 63) in
    let seen := bytes_seen st + 1 in
    if seen =? bytes_needed st then (utf8_initial, [cp])
    else (mk_utf8 cp seen (bytes_needed st) 128 191, []).

(** Code units of a scalar value (a surrogate pair above the BMP). *)
Definition utf16 (cp : Z) : jsstring :=
  if cp <? 65536 then [cp]
  else [55296 + Z.shiftr (cp - 65536) 10; 56320 + Z.land (cp - 65536) 1023].

(** Serialising a scalar value: a U+FEFF that is the first scalar value
    of the stream is a byte order mark and is dropped. *)
Definition serialize (seen : bool) (cp : Z) : jsstring :=
  if seen then utf16 cp else if cp =? 65279 then [] else utf16 cp.

Fixpoint serialize_all (seen : bool) (cps : list Z) : bool * jsstring :=
  match cps with
  | [] => (seen, [])
  | cp :: cps' =>
      let (seen', out) := serialize_all true cps' in
      (seen', serialize seen cp ++ out)
  end.

Definition byte_value (b : byte) : Z := Z.of_N (Byte.to_N b).

(** [decoder.decode(value, {stream: true})]: the end of the chunk is not
    the end of the stream, an unfinished sequence stays in the state. *)
Fixpoint decode (d : decoder) (value : list byte) : decoder * jsstring :=
  match value with
  | [] => (d, [])
  | b :: value' =>
      let (st, cps) := handler (utf8 d) (byte_value b) in
      let (seen, out) := serialize_all (bom_seen d) cps in
      let (d', out') := decode (mk_decoder st seen) value' in
      (d', out ++ out')
  end.

(** The text of a whole chunk sequence, decoded chunk by chunk. *)
Fixpoint decode_chunks (d : decoder) (chunks : list (list byte)) : list jsstring :=
  match chunks with
  | [] => []
  | c :: chunks' =>
      let (d', piece) := decode d c in piece :: decode_chunks d' chunks'
  end.

End TextDecoder.

(* ===================================================================== *)
(** ** JSON.parse *)
(* ===================================================================== *)

Module JSON.
Import JS.

(** A parsed JSON value. A number keeps the decimal value of its literal,
    [mantissa * 10 ^ exponent] (the engine then rounds it to a double; an
    integer below 2^53 such as a page number is exact). An object keeps its
    members in the order of the text. *)
#[warnings="-register-all"]
Inductive json :=
| JNull
| JBool (b : bool)
| JNumber (mantissa exponent : Z)
| JString (s : jsstring)
| JArray (items : list json)
| JObject (members : list (jsstring * json)).

Inductive token :=
| TLBrace | TRBrace | TLBracket | TRBracket | TColon | TComma
| TString (s : jsstring)
| TNumber (mantissa exponent : Z)
| TTrue | TFalse | TNull.

(** *** Lexer: one code unit at a time *)

Inductive num_phase :=
| NMinus | NZero | NInt | NDot | NFrac | NExp | NExpSign | NExpDigits.

Record num_acc := mk_num {
  neg : bool; mant : Z; scale : Z; eneg : bool; expo : Z
}.

Inductive lex_mode :=
| LStart
| LString (acc : jsstring)
| LEscape (acc : jsstring)
| LUnicode (acc : jsstring) (n : nat) (v : Z)
| LNumber (ph : num_phase) (a : num_acc)
| LWord (rest : jsstring) (t : token)
| LFail.

Definition is_json_space (c : Z) : bool :=
  (c =? 32) || (c =? 9) || (c =? 10) || (c =? 13).

Definition is_digit (c : Z) : bool := (48 <=? c) && (c <=? 57).

Definition hex_value (c : Z) : option Z :=
  if is_digit c then Some (c - 48)
  else if (97 <=? c) && (c <=? 102) then Some (c - 87)
  else if (65 <=? c) && (c <=? 70) then Some (c - 55)
  else None.

(** A code unit read between two tokens. *)
Definition lex_start (c : Z) (toks : list token) : lex_mode * list token :=
  if is_json_space c then (LStart, toks)
  else if c =? 123 then (LStart, TLBrace :: toks)
  else if c =? 125 then (LStart, TRBrace :: toks)
  else if c =? 91 then (LStart, TLBracket :: toks)
  else if c =? 93 then (LStart, TRBracket :: toks)
  else if c =? 58 then (LStart, TColon :: toks)
  else if c =? 44 then (LStart, TComma :: toks)
  else if c =? 34 then (LString [], toks)
  else if c =? 45 then (LNumber NMinus (mk_num true 0 0 false 0), toks)
  else if c =? 48 then (LNumber NZero (mk_num false 0 0 false 0), toks)
  else if is_digit c then (LNumber NInt (mk_num false (c - 48) 0 false 0), toks)
  else if c =? 116 then (LWord (lit "rue") TTrue, toks)
  else if c =? 102 then (LWord (lit "alse") TFalse, toks)
  else if c =? 110 then (LWord (lit "ull") TNull, toks)
  else (LFail, toks).

Inductive num_step :=
| NCont (ph : num_phase) (a : num_acc)
| NEnd
| NBad.

Definition is_e (c : Z) : bool := (c =? 101) || (c =? 69).

Definition push_int (a : num_acc) (c : Z) : num_acc :=
  mk_num (neg a) (mant a * 10 + (c - 48)) (scale a) (eneg a) (expo a).

Definition push_frac (a : num_acc) (c : Z) : num_acc :=
  mk_num (neg a) (mant a * 10 + (c - 48)) (scale a + 1) (eneg a) (expo a).

Definition push_exp (a : num_acc) (c : Z) : num_acc :=
  mk_num (neg a) (mant a) (scale a) (eneg a) (expo a * 10 + (c - 48)).

Definition set_eneg (a : num_acc) : num_acc :=
  mk_num (neg a) (mant a) (scale a) true (expo a).

(** The number grammar: an optional minus sign; [0] or a non-zero digit
    followed by digits; an optional fraction (a dot and at least one
    digit); an optional exponent ([e] or [E], an optional sign, at least
    one digit). *)
Definition lex_number (ph : num_phase) (a : num_acc) (c : Z) : num_step :=
  match ph with
  | NMinus =>
      if c =? 48 then NCont NZero a
      else if is_digit c then NCont NInt (push_int a c) else NBad
  | NZero =>
      if c =? 46 then NCont NDot a else if is_e c then NCont NExp a
      else if is_digit c then NBad else NEnd
  | NInt =>
      if is_digit c then NCont NInt (push_int a c)
      else if c =? 46 then NCont NDot a
      else if is_e c then NCont NExp a else NEnd
  | NDot => if is_digit c then NCont NFrac (push_frac a c) else NBad
  | NFrac =>
      if is_digit c then NCont NFrac (push_frac a c)
      else if is_e c then NCont NExp a else NEnd
  | NExp =>
      if c =? 43 then NCont NExpSign a
      else if c =? 45 then NCont NExpSign (set_eneg a)
      else if is_digit c then NCont NExpDigits (push_exp a c) else NBad
  | NExpSign => if is_digit c then NCont NExpDigits (push_exp a c) else NBad
  | NExpDigits => if is_digit c then NCont NExpDigits (push_exp a c) else NEnd
  end.

Definition num_complete (ph : num_phase) : bool :=
  match ph with
  | NZero | NInt | NFrac | NExpDigits => true
  | _ => false
  end.

Definition number_token (a : num_acc) : token :=
  TNumber (if neg a then - mant a else mant a)
          ((if eneg a then - expo a else expo a) - scale a).

Definition unescape (c : Z) : option Z :=
  if c =? 34 then Some 34 else if c =? 92 then Some 92
  else if c =? 47 then Some 47 else if c =? 98 then Some 8
  else if c =? 102 then Some 12 else if c =? 110 then Some 10
  else if c =? 114 then Some 13 else if c =? 116 then Some 9
  else None.

Definition lex_step (st : lex_mode * list token) (c : Z) : lex_mode * list token :=
  let (mode, toks) := st in
  match mode with
  | LStart => lex_start c toks
  | LString acc =>
      if c =? 34 then (LStart, TString (rev acc) :: toks)
      else if c =? 92 then (LEscape acc, toks)
      else if c <? 32 then (LFail, toks)
      else (LString (c :: acc), toks)
  | LEscape acc =>
      if c =? 117 then (LUnicode acc 0 0, toks)
      else match unescape c with
           | Some u => (LString (u :: acc), toks)
           | None => (LFail, toks)
           end
  | LUnicode acc n v =>
      match hex_value c with
      | Some h =>
          if Nat.eqb n 3 then (LString ((v * 16 + h) :: acc), toks)
          else (LUnicode acc (S n) (v * 16 + h), toks)
      | None => (LFail, toks)
      end
  | LNumber ph a =>
      match lex_number ph a c with
      | NCont ph' a' => (LNumber ph' a', toks)
      | NEnd => lex_start c (number_token a :: toks)
      | NBad => (LFail, toks)
      end
  | LWord rest t =>
      match rest with
      | r :: rest' =>
          if c =? r then
            match rest' with
            | [] => (LStart, t :: toks)
            | _ :: _ => (LWord rest' t, toks)
            end
          else (LFail, toks)
      | [] => (LFail, toks)
      end
  | LFail => (LFail, toks)
  end.

Definition lex (text : jsstring) : option (list token) :=
  match fold_left lex_step text (LStart, []) with
  | (LStart, toks) => Some (rev toks)
  | (LNumber ph a, toks) =>
      if num_complete ph then Some (rev (number_token a :: toks)) else None
  | _ => None
  end.

(** *** Parser: a pushdown automaton over the tokens *)

(** An enclosing container whose next element is being read. *)
Inductive context :=
| CArray (items : list json)
| CObject (members : list (jsstring * json)) (key : jsstring).

Inductive parse_state :=
| SValue (stk : list context)
| SArrayStart (stk : list context)
| SArrayNext (items : list json) (stk : list context)
| SObjectStart (stk : list context)
| SObjectKey (members : list (jsstring * json)) (stk : list context)
| SObjectColon (members : list (jsstring * json)) (key : jsstring) (stk : list context)
| SObjectNext (members : list (jsstring * json)) (stk : list context)
| SDone (v : json)
| SFail.

(** A finished value goes to the innermost enclosing container. *)
Definition deliver (v : json) (stk : list context) : parse_state :=
  match stk with
  | [] => SDone v
  | CArray items :: stk' => SArrayNext (v :: items) stk'
  | CObject members key :: stk' => SObjectNext ((key, v) :: members) stk'
  end.

Definition value_token (stk : list context) (t : token) : parse_state :=
  match t with
  | TNull => deliver JNull stk
  | TTrue => deliver (JBool true) stk
  | TFalse => deliver (JBool false) stk
  | TNumber m e => deliver (JNumber m e) stk
  | TString s => deliver (JString s) stk
  | TLBracket => SArrayStart stk
  | TLBrace => SObjectStart stk
  | _ => SFail
  end.

Definition parse_step (st : parse_state) (t : token) : parse_state :=
  match st with
  | SValue stk => value_token stk t
  | SArrayStart stk =>
      match t with
      | TRBracket => deliver (JArray []) stk
      | _ => value_token (CArray [] :: stk) t
      end
  | SArrayNext items stk =>
      match t with
      | TComma => SValue (CArray items :: stk)
      | TRBracket => deliver (JArray (rev items)) stk
      | _ => SFail
      end
  | SObjectStart stk =>
      match t with
      | TRBrace => deliver (JObject []) stk
      | TString k => SObjectColon [] k stk
      | _ => SFail
      end
  | SObjectKey members stk =>
      match t with
      | TString k => SObjectColon members k stk
      | _ => SFail
      end
  | SObjectColon members k stk =>
      match t with
      | TColon => SValue (CObject members k :: stk)
      | _ => SFail
      end
  | SObjectNext members stk =>
      match t with
      | TComma => SObjectKey members stk
      | TRBrace => deliver (JObject (rev members)) stk
      | _ => SFail
      end
  | SDone _ => SFail
  | SFail => SFail
  end.

(** [JSON.parse(text)]: [None] stands for the SyntaxError it throws. *)
Definition parse (text : jsstring) : option json :=
  match lex text with
  | Some toks =>
      match fold_left parse_step toks (SValue []) with
      | SDone v => Some v
      | _ => None
      end
  | None => None
  end.

End JSON.


(* ===================================================================== *)
(** ** ChatBox: component state, effects and [handleAsk] *)
(* ===================================================================== *)

Module ChatBox.
Import JS TextDecoder.
Export JSON.

(** One entry of the transcript. A message the user sends has no
    [citations] property ([None]); [timestamp] is the reading of the clock
    at [new Date()]. *)
Record message := mk_message {
  sender : jsstring;
  text : jsstring;
  citations : option json;
  timestamp : Z
}.

(** The [useState] cells of the component that [handleAsk] touches. *)
Record state := mk_state {
  question : jsstring;
  messages : list message;
  loading : bool
}.

(** The props: [null] is [None]. *)
Record props := mk_props {
  sessionId : option jsstring;
  sessionToken : option jsstring
}.

(** *** The outside world during one call *)

(** How the body stream ends: [read()] answers [done], or it rejects. *)
Inductive stream_end :=
| EndOfStream
| StreamError (message : jsstring).

Record body_stream := mk_stream {
  chunks : list (list byte);
  ending : stream_end
}.

(** What [fetch] does: the promise rejects (no connection), or a response
    arrives with its status, the text [response.text()] gives and its
    body ([None] is a null body). A thrown [Error] is known by its
    [message]; a rejection of [response.text()] reaches [handleAsk] like a
    rejection of [fetch] and is a [Rejected] too. *)
Inductive fetch_result :=
| Rejected (message : jsstring)
| Response (status : Z) (body_text : jsstring) (body : option body_stream).

Record environment := mk_env {
  network : fetch_result;
  clock_user : Z;
  clock_bot : Z;
  clock_error : Z
}.

(** *** Effects *)

(** The places of [handleAsk] that call [setMessages]. *)
Inductive site :=
| AppendUser | AppendBot | LoopUpdate | FinalUpdate | AppendError.

(** What a call does to the outside, in order. [SetMessages] carries the
    transcript the updater produced. *)
Inductive event :=
| Alert (msg : jsstring)
| Fetch (endpoint q session_id : jsstring) (token : option jsstring)
| SetMessages (place : site) (updated : list message)
| SetLoading (b : bool)
| SetQuestion (q : jsstring)
| JsonParse (arg : jsstring)
| AssignCitations (v : json)
| ConsoleError (label : jsstring).

Inductive outcome (A : Type) :=
| Ok (a : A)
| Throw (message : jsstring).

Arguments Ok {A} a.
Arguments Throw {A} message.

(** A computation over the component state that may throw an [Error] and
    leaves a log of its effects. *)
Definition M (A : Type) : Type := state -> outcome A * state * list event.

Definition ret {A} (a : A) : M A := fun st => (Ok a, st, []).

Definition bind {A B} (m : M A) (k : A -> M B) : M B :=
  fun st =>
    match m st with
    | (Ok a, st1, log1) =>
        match k a st1 with
        | (r, st2, log2) => (r, st2, log1 ++ log2)
        end
    | (Throw e, st1, log1) => (Throw e, st1, log1)
    end.

Definition throw {A} (message : jsstring) : M A :=
  fun st => (Throw message, st, []).

Definition emit (e : event) : M unit := fun st => (Ok tt, st, [e]).

(** [try { m } catch (err) { handler err }]. *)
Definition try_catch {A} (m : M A) (handler : jsstring -> M A) : M A :=
  fun st =>
    match m st with
    | (Ok a, st1, log1) => (Ok a, st1, log1)
    | (Throw e, st1, log1) =>
        match handler e st1 with
        | (r, st2, log2) => (r, st2, log1 ++ log2)
        end
    end.

(** [try { m } finally { f }]. *)
Definition finally {A} (m : M A) (f : M unit) : M A :=
  fun st =>
    match m st with
    | (r, st1, log1) =>
        match f st1 with
        | (Ok _, st2, log2) => (r, st2, log1 ++ log2)
        | (Throw e, st2, log2) => (Throw e, st2, log1 ++ log2)
        end
    end.

Declare Scope js_scope.
Delimit Scope js_scope with js.
Notation "x <- m ;; k" := (bind m (fun x => k))
  (at level 61, m at next level, right associativity) : js_scope.
Notation "m ;; k" := (bind m (fun _ => k))
  (at level 61, right associativity) : js_scope.
Open Scope js_scope.

(** [setMessages(prev => f prev)]. *)
Definition setMessages (place : site) (f : list message -> list message) : M unit :=
  fun st =>
    let updated := f (messages st) in
    (Ok tt, mk_state (question st) updated (loading st), [SetMessages place updated]).

Definition setLoading (b : bool) : M unit :=
  fun st => (Ok tt, mk_state (question st) (messages st) b, [SetLoading b]).

Definition setQuestion (q : jsstring) : M unit :=
  fun st => (Ok tt, mk_state q (messages st) (loading st), [SetQuestion q]).

(** *** config.js: apiStream *)

Definition response_ok (status : Z) : bool :=
  (200 <=? status) && (status <=? 299).

(** [apiStream(endpoint, options)]: the request goes out; a response that
    is not ok is turned into a thrown [Error]. The result is the body of
    the response. *)
Definition apiStream (env : environment) (endpoint q session_id : jsstring)
    (token : option jsstring) : M (option body_stream) :=
  emit (Fetch endpoint q session_id token) ;;
  match network env with
  | Rejected e => throw e
  | Response status errorText body =>
      if negb (response_ok status) then
        throw (lit "Server error: " ++ number_to_string status
                 ++ lit " - " ++ errorText)
      else ret body
  end.

(** *** ChatBox.js: handleAsk *)

Definition SENTINEL : jsstring := lit "---__CITATIONS__---".

Definition with_text (m : message) (t : jsstring) : message :=
  mk_message (sender m) t (citations m) (timestamp m).

Definition with_citations (m : message) (v : json) : message :=
  mk_message (sender m) (text m) (Some v) (timestamp m).

(** [x || ""] where [x] is a string or [undefined]. *)
Definition or_empty (x : option jsstring) : jsstring :=
  match x with
  | Some s => s
  | None => []
  end.

(** [updated = [...prev]; updated[updated.length - 1] = {...m}]. On an
    empty array the index is -1, which names no element: the array stays
    empty. *)
Definition replace_last (m : message) (prev : list message) : list message :=
  match prev with
  | [] => []
  | _ :: _ => removelast prev ++ [m]
  end.

(** The read loop (lines 152-173). It returns [botMessage] and
    [citationsData] as they are when the loop is left.

    [botMessage] is one mutable object: the transcript installed when it
    is created holds the object itself, every later update installs a
    copy [{...botMessage}]. An assignment to [botMessage.text] or
    [botMessage.citations] is followed by the next [setMessages] with no
    [await] in between, so the transcripts a render can see are those of
    the [SetMessages] events, and a message is a value here. The call is
    followed on its own: no other handler of the component runs between
    two of its steps. *)
Fixpoint read_loop (pending : list (list byte)) (fin : stream_end)
    (decoder : TextDecoder.decoder) (buffer citationsData : jsstring)
    (botMessage : message) : M (message * jsstring) :=
  match pending with
  | [] =>
      match fin with
      | EndOfStream => ret (botMessage, citationsData)
      | StreamError e => throw e
      end
  | value :: rest =>
      let (decoder', piece) := decode decoder value in
      let buffer := buffer ++ piece in
      if includes buffer SENTINEL then
        let parts := split buffer SENTINEL in
        let botMessage := with_text botMessage (or_empty (nth_error parts 0)) in
        let citationsData := or_empty (option_map trim (nth_error parts 1)) in
        ret (botMessage, citationsData)
      else
        let botMessage := with_text botMessage buffer in
        setMessages LoopUpdate (replace_last botMessage) ;;
        read_loop rest fin decoder' buffer citationsData botMessage
  end.

(** Lines 175-181: the citations are parsed when there is a payload. *)
Definition parse_citations (citationsData : jsstring) (botMessage : message)
    : M message :=
  if truthy citationsData then
    emit (JsonParse citationsData) ;;
    match JSON.parse citationsData with
    | Some v => emit (AssignCitations v) ;; ret (with_citations botMessage v)
    | None => emit (ConsoleError (lit "Failed to parse citations")) ;; ret botMessage
    end
  else ret botMessage.

(** The body of the [try] block (lines 135-187). *)
Definition ask_stream (p : props) (env : environment) (q session_id : jsstring)
    : M unit :=
  body <- apiStream env (lit "/ask") q session_id (sessionToken p) ;;
  match body with
  | None => throw (lit "No response body")
  | Some stream =>
      let decoder := new_TextDecoder in
      let botMessage := mk_message (lit "AI") [] (Some (JArray [])) (clock_bot env) in
      setMessages AppendBot (fun prev => prev ++ [botMessage]) ;;
      r <- read_loop (chunks stream) (ending stream) decoder [] [] botMessage ;;
      let (botMessage, citationsData) := r in
      botMessage <- parse_citations citationsData botMessage ;;
      setMessages FinalUpdate (replace_last botMessage)
  end.

(** The [catch] block (lines 189-194). *)
Definition error_entry (env : environment) (err : jsstring) : message :=
  mk_message (lit "AI") (lit "Error: " ++ err) (Some (JArray [])) (clock_error env).

Definition on_error (env : environment) (err : jsstring) : M unit :=
  emit (ConsoleError (lit "Error asking question:")) ;;
  setMessages AppendError (fun prev => prev ++ [error_entry env err]).

(** [handleAsk] (lines 123-199). The two guards return before the [try]
    statement is entered, so its [finally] block does not run for them. *)
Definition handleAsk (p : props) (env : environment) : M unit :=
  fun st =>
    match sessionId p with
    | None | Some [] =>
        emit (Alert (lit "Please upload PDFs or load a session first!")) st
    | Some (c :: id) =>
        let session_id := c :: id in
        if negb (truthy (trim (question st))) then ret tt st
        else
          let q := question st in
          let newMessage := mk_message (lit "You") q None (clock_user env) in
          (setMessages AppendUser (fun prev => prev ++ [newMessage]) ;;
           setLoading true ;;
           finally
             (try_catch (ask_stream p env q session_id) (on_error env))
             (setLoading false ;; setQuestion [])) st
    end.

End ChatBox.


(* ===================================================================== *)
(** ** What a call shows: transcripts, snapshots, payloads *)
(* ===================================================================== *)

Module Observe.
Import JS TextDecoder ChatBox.

(** The pieces of text the chunks of a stream decode to, in order. *)
Definition decoded (cs : list (list byte)) : list jsstring :=
  decode_chunks new_TextDecoder cs.

(** The whole decoded input: the accumulated buffer after the last chunk. *)
Definition received (cs : list (list byte)) : jsstring :=
  concat (decoded cs).

(** The buffers after the first, second, ... piece, starting from [buffer]. *)
Fixpoint buffers (buffer : jsstring) (pieces : list jsstring) : list jsstring :=
  match pieces with
  | [] => []
  | piece :: rest => (buffer ++ piece) :: buffers (buffer ++ piece) rest
  end.

(** The buffers in which the sentinel is not seen yet, and the first one
    in which it is seen, if any. *)
Fixpoint until_sentinel (bs : list jsstring) : list jsstring * option jsstring :=
  match bs with
  | [] => ([], None)
  | b :: bs' =>
      if includes b SENTINEL then ([], Some b)
      else let (quiet, hit) := until_sentinel bs' in (b :: quiet, hit)
  end.

(** The accumulated text at the moment the sentinel is first seen. *)
Definition first_sighting (cs : list (list byte)) : option jsstring :=
  snd (until_sentinel (buffers [] (decoded cs))).

(** The portion of a text before the first sentinel (all of it when there
    is none), and the portion after the first sentinel. *)
Definition before_first (s : jsstring) : jsstring :=
  match index_of SENTINEL s with
  | Some i => firstn i s
  | None => s
  end.

Definition after_first (s : jsstring) : jsstring :=
  match index_of SENTINEL s with
  | Some i => skipn (i + length SENTINEL) s
  | None => []
  end.

(** The text between the first sentinel and the next one, or the end. *)
Definition between_first_two (s : jsstring) : jsstring :=
  before_first (after_first s).

(** [parts[1]] of the source: the raw text captured after the sentinel. *)
Definition raw_capture (b : jsstring) : jsstring :=
  or_empty (nth_error (split b SENTINEL) 1).

(** The transcript a loop update installs for the buffer [b]. *)
Definition loop_shows (bot : message) (ms : list message) (b : jsstring)
    : list message :=
  replace_last (with_text bot b) ms.

(** The two messages [handleAsk] creates before any byte arrives. *)
Definition user_message (env : environment) (st : state) : message :=
  mk_message (lit "You") (question st) None (clock_user env).

Definition bot_message (env : environment) : message :=
  mk_message (lit "AI") [] (Some (JArray [])) (clock_bot env).

(** Effects and result of lines 175-181 on a payload. *)
Definition parse_log (payload : jsstring) : list event :=
  if truthy payload then
    JsonParse payload ::
    match JSON.parse payload with
    | Some v => [AssignCitations v]
    | None => [ConsoleError (lit "Failed to parse citations")]
    end
  else [].

Definition parsed_message (payload : jsstring) (m : message) : message :=
  if truthy payload then
    match JSON.parse payload with
    | Some v => with_citations m v
    | None => m
    end
  else m.

(** The message and the payload the read loop is left with: at the first
    sighting [hit] of the sentinel, or else with the last buffer. *)
Definition exit_message (bot : message) (quiet : list jsstring)
    (hit : option jsstring) : message :=
  match hit with
  | Some b => with_text bot (before_first b)
  | None => with_text bot (last quiet [])
  end.

Definition exit_payload (hit : option jsstring) : jsstring :=
  match hit with
  | Some b => trim (between_first_two b)
  | None => []
  end.

(** The last message of the transcript after the update that follows the
    read loop. *)
Definition final_message (env : environment) (quiet : list jsstring)
    (hit : option jsstring) : message :=
  parsed_message (exit_payload hit) (exit_message (bot_message env) quiet hit).

(** The effects of [handleAsk] up to the end of the read loop, on the
    transcript [base] that already holds the question. *)
Definition stream_log (p : props) (env : environment) (q sid : jsstring)
    (base : list message) (quiet : list jsstring) : list event :=
  Fetch (lit "/ask") q sid (sessionToken p)
  :: SetMessages AppendBot (base ++ [bot_message env])
  :: map (fun b => SetMessages LoopUpdate
                     (base ++ [with_text (bot_message env) b])) quiet.

(** The log of a call that reaches the update after the read loop, and of
    a call whose stream breaks in the read loop. *)
Definition opening_log (p : props) (env : environment) (q sid : jsstring)
    (base : list message) (quiet : list jsstring) : list event :=
  SetMessages AppendUser base :: SetLoading true
  :: stream_log p env q sid base quiet.

Definition closing_log : list event := [SetLoading false; SetQuestion []].

Definition finalized_log (p : props) (env : environment) (q sid : jsstring)
    (base : list message) (quiet : list jsstring) (payload : jsstring)
    (final : list message) : list event :=
  opening_log p env q sid base quiet
  ++ parse_log payload ++ [SetMessages FinalUpdate final] ++ closing_log.

Definition failed_log (p : props) (env : environment) (q sid : jsstring)
    (base : list message) (quiet : list jsstring) (failed : list message)
    : list event :=
  opening_log p env q sid base quiet
  ++ [ConsoleError (lit "Error asking question:"); SetMessages AppendError failed]
  ++ closing_log.

Definition last_message (ms : list message) : option message :=
  hd_error (rev ms).

Definition option_list {A} (o : option A) : list A :=
  match o with
  | Some a => [a]
  | None => []
  end.

(** The transcripts installed by [setMessages], in order. *)
Definition transcript_of (e : event) : list (list message) :=
  match e with
  | SetMessages _ ms => [ms]
  | _ => []
  end.

Definition transcripts (log : list event) : list (list message) :=
  flat_map transcript_of log.

(** The snapshots of the assistant message emitted by the read loop: what
    each of its updates puts at the end of the transcript. *)
Definition loop_snapshot_of (e : event) : list message :=
  match e with
  | SetMessages LoopUpdate ms => option_list (last_message ms)
  | _ => []
  end.

Definition loop_snapshots (log : list event) : list message :=
  flat_map loop_snapshot_of log.

(** The snapshot emitted after the read loop. *)
Definition final_snapshot_of (e : event) : list message :=
  match e with
  | SetMessages FinalUpdate ms => option_list (last_message ms)
  | _ => []
  end.

Definition final_snapshot (log : list event) : option message :=
  hd_error (flat_map final_snapshot_of log).

(** All emitted snapshots, in order. *)
Definition snapshot_of (e : event) : list message :=
  loop_snapshot_of e ++ final_snapshot_of e.

Definition snapshots (log : list event) : list message :=
  flat_map snapshot_of log.

(** The assistant message as first put in the transcript. *)
Definition created_of (e : event) : list message :=
  match e with
  | SetMessages AppendBot ms => option_list (last_message ms)
  | _ => []
  end.

Definition created (log : list event) : option message :=
  hd_error (flat_map created_of log).

(** The error entries appended by the [catch] block. *)
Definition error_entry_of (e : event) : list message :=
  match e with
  | SetMessages AppendError ms => option_list (last_message ms)
  | _ => []
  end.

Definition error_entries (log : list event) : list message :=
  flat_map error_entry_of log.

(** The arguments [JSON.parse] was called with. *)
Definition parse_call_of (e : event) : list jsstring :=
  match e with
  | JsonParse arg => [arg]
  | _ => []
  end.

Definition parse_calls (log : list event) : list jsstring :=
  flat_map parse_call_of log.

(** The values assigned to [botMessage.citations] after its creation. *)
Definition citation_write_of (e : event) : list json :=
  match e with
  | AssignCitations v => [v]
  | _ => []
  end.

Definition citation_writes (log : list event) : list json :=
  flat_map citation_write_of log.

(** What a call does after its first assignment to
    [botMessage.citations] (nothing when there is none). *)
Fixpoint after_write (log : list event) : list event :=
  match log with
  | [] => []
  | AssignCitations _ :: log' => log'
  | _ :: log' => after_write log'
  end.

(** The network requests issued, and the changes of the loading flag. *)
Definition request_of (e : event) : list event :=
  match e with
  | Fetch _ _ _ _ => [e]
  | _ => []
  end.

Definition requests (log : list event) : list event :=
  flat_map request_of log.

Definition loading_of (e : event) : list bool :=
  match e with
  | SetLoading b => [b]
  | _ => []
  end.

Definition loading_changes (log : list event) : list bool :=
  flat_map loading_of log.

(** The citation list of a message is the empty array. *)
Definition uncited (m : message) : Prop :=
  citations m = Some (JArray []).

(** The citation list of the assistant message is written once at most,
    and only when the read loop is over: the message is created with an
    empty list, every snapshot of the read loop and every error entry has
    an empty list, the log holds at most one assignment, without one the
    final snapshot has an empty list, and with one nothing but the final
    snapshot follows it, carrying the assigned value. *)
Definition written_once (log : list event) : Prop :=
  (forall m, created log = Some m -> uncited m)
  /\ Forall uncited (loop_snapshots log)
  /\ Forall uncited (error_entries log)
  /\ (length (citation_writes log) <= 1)%nat
  /\ (citation_writes log = [] ->
      forall m, final_snapshot log = Some m -> uncited m)
  /\ (forall v, citation_writes log = [v] ->
        loop_snapshots (after_write log) = []
        /\ citation_writes (after_write log) = []
        /\ exists m, final_snapshot log = Some m
                     /\ snapshots (after_write log) = [m]
                     /\ citations m = Some v).

(** Each text is strictly longer than the one before it. *)
Definition grows_strictly (texts : list jsstring) : Prop :=
  forall i a b,
    nth_error texts i = Some a -> nth_error texts (S i) = Some b ->
    (length a < length b)%nat.

(** The three components of a run. *)
Definition result_of {A} (r : outcome A * state * list event) : outcome A :=
  fst (fst r).
Definition state_of {A} (r : outcome A * state * list event) : state :=
  snd (fst r).
Definition log_of {A} (r : outcome A * state * list event) : list event :=
  snd r.

(** The guards of [handleAsk] let the call through. *)
Definition passes_guards (p : props) (st : state) : Prop :=
  (exists c id, sessionId p = Some (c :: id)) /\ trim (question st) <> [].

(** The session identifier is missing ([null] or the empty string). *)
Definition session_absent (p : props) : Prop :=
  sessionId p = None \/ sessionId p = Some [].

(** The question is empty or consists of white space only. *)
Definition blank (q : jsstring) : Prop :=
  forallb is_space q = true.

(** The environment answers with an ok response streaming [cs]. *)
Definition streams (env : environment) (cs : list (list byte))
    (fin : stream_end) : Prop :=
  exists status txt,
    network env = Response status txt (Some (mk_stream cs fin))
    /\ response_ok status = true.

(** The failures of the transport, with the message of the [Error] each
    one raises: the request is rejected, the response is not ok or has no
    body, or the stream breaks, after any number of chunks. *)
Inductive transport_fails (env : environment) : jsstring -> Prop :=
| fetch_rejects e :
    network env = Rejected e ->
    transport_fails env e
| status_not_ok status txt body :
    network env = Response status txt body ->
    response_ok status = false ->
    transport_fails env
      (lit "Server error: " ++ number_to_string status ++ lit " - " ++ txt)
| body_missing status txt :
    network env = Response status txt None ->
    response_ok status = true ->
    transport_fails env (lit "No response body")
| stream_breaks cs e :
    streams env cs (StreamError e) ->
    transport_fails env e.

(** The citation payload of the input, the text between its first
    sentinel and the next one (or its end), is all there when the
    sentinel is first seen: the chunks that come later add nothing to
    it. It is so whenever the input arrives in one chunk. *)
Definition payload_arrived (cs : list (list byte)) : Prop :=
  exists b,
    first_sighting cs = Some b
    /\ between_first_two b = between_first_two (received cs).

(** A text begins, or ends, with a white space character. *)
Definition begins_with_space (s : jsstring) : bool :=
  match s with
  | c :: _ => is_space c
  | [] => false
  end.

Definition ends_with_space (s : jsstring) : bool :=
  begins_with_space (rev s).

(** [payload] is [raw] without its leading and trailing white space:
    white space only was taken off at both ends, and none is left at
    either end. *)
Definition stripped_of (raw payload : jsstring) : Prop :=
  (exists leading trailing,
     raw = leading ++ payload ++ trailing /\ blank leading /\ blank trailing)
  /\ begins_with_space payload = false
  /\ ends_with_space payload = false.

End Observe.

(* ===================================================================== *)
(** ** Sample inputs *)
(* ===================================================================== *)

Module Samples.
Import JS ChatBox.

(** Bytes of an ASCII text. *)
Definition bytes (s : string) : list byte := list_byte_of_string s.

(** Bytes of an ASCII text in which every apostrophe stands for a double
    quote (byte 0x22). *)
Definition bytesq (s : string) : list byte :=
  map (fun b => if Byte.eqb b x27 then x22 else b) (list_byte_of_string s).

Arguments bytes s%_string.
Arguments bytesq s%_string.

Definition asking : state := mk_state (lit "What is the answer?") [] false.

Definition session : props := mk_props (Some (lit "s-1")) (Some (lit "token")).

(** An ok response whose body delivers [cs] and then ends as [fin]. *)
Definition serving (cs : list (list byte)) (fin : stream_end) : environment :=
  mk_env (Response 200 [] (Some (mk_stream cs fin))) 1 2 3.

(** The input of the sentinel-split property of the specification. *)
Definition answer_42 : list byte :=
  bytesq ("The answer is 42.---__CITATIONS__---"
          ++ "[{'source':'doc.pdf','page':3,'preview':'...'}]").



(** The two bytes of U+00E9 arrive in two chunks. *)
Definition cafe_in_three : list (list byte) :=
  [bytes "caf"; [xc3]; [xa9]].

(** A payload with two spaces before it and a space and a line feed
    after it. *)
Definition padded_payload : list byte :=
  bytes "Done.---__CITATIONS__---  [1] " ++ [x0a].

Definition citation_doc_p3 : json :=
  JArray [JObject [(lit "source", JString (lit "doc.pdf"));
                   (lit "page", JNumber 3 0);
                   (lit "preview", JString (lit "..."))]].

End Samples.


(* ===================================================================== *)
(** ** JavaScript values read from JSON *)
(* ===================================================================== *)

Module Value.
Import JS ChatBox.

(** What the engine does that this development does not compute: the
    double a number literal [mantissa * 10 ^ exponent] is rounded to is
    known by whether it is zero and by its [Number::toString]; the
    messages of the TypeError for a property read on [null] and of the
    SyntaxError of a failed parse are the engine's. *)
Record engine := mk_engine {
  number_is_zero : Z -> Z -> bool;
  number_text : Z -> Z -> jsstring;
  null_read_message : jsstring -> jsstring;
  syntax_message : jsstring -> jsstring
}.

Fixpoint string_eqb (a b : jsstring) : bool :=
  match a, b with
  | [], [] => true
  | x :: a', y :: b' => (x =? y) && string_eqb a' b'
  | _, _ => false
  end.

(** [ToBoolean] of a value. *)
Definition truthy_value (en : engine) (v : json) : bool :=
  match v with
  | JNull => false
  | JBool b => b
  | JNumber m e => negb (number_is_zero en m e)
  | JString s => truthy s
  | JArray _ | JObject _ => true
  end.

(** [Array.prototype.join] on texts. *)
Fixpoint join (sep : jsstring) (texts : list jsstring) : jsstring :=
  match texts with
  | [] => []
  | [t] => t
  | t :: rest => t ++ sep ++ join sep rest
  end.

(** [ToString] of a value: an array joins its elements with commas, a
    [null] element counting as the empty string; an object is
    ["[object Object]"]. *)
Fixpoint to_text (en : engine) (v : json) : jsstring :=
  match v with
  | JNull => lit "null"
  | JBool true => lit "true"
  | JBool false => lit "false"
  | JNumber m e => number_text en m e
  | JString s => s
  | JArray items =>
      join (lit ",")
        ((fix texts (l : list json) : list jsstring :=
            match l with
            | [] => []
            | JNull :: l' => [] :: texts l'
            | x :: l' => to_text en x :: texts l'
            end) items)
  | JObject _ => lit "[object Object]"
  end.

(** The value of a member of a parsed object: of two members with one
    key the later one stays. *)
Fixpoint member (k : jsstring) (members : list (jsstring * json)) : option json :=
  match members with
  | [] => None
  | (k', v) :: rest =>
      match member k rest with
      | Some later => Some later
      | None => if string_eqb k' k then Some v else None
      end
  end.

(** The outcome of reading [v.k], for a key [k] that no prototype
    defines (as ["error"], ["audio"], ["sessions"]): a [TypeError] on
    [null], [undefined] ([None]) on every other value without the
    member. *)
Inductive read :=
| ReadThrows (message : jsstring)
| ReadGives (v : option json).

Definition read_member (en : engine) (v : json) (k : jsstring) : read :=
  match v with
  | JNull => ReadThrows (null_read_message en k)
  | JObject members => ReadGives (member k members)
  | _ => ReadGives None
  end.

(** [x || fallback], for [x] a value or [undefined]. *)
Definition value_or (en : engine) (x : option json) (fallback : json) : json :=
  match x with
  | Some v => if truthy_value en v then v else fallback
  | None => fallback
  end.

(** [`${x}`] for a string or [null]. *)
Definition text_or_null (x : option jsstring) : jsstring :=
  match x with
  | Some s => s
  | None => lit "null"
  end.

(** Truthiness of a string or [null]. *)
Definition present (x : option jsstring) : bool :=
  match x with
  | Some s => truthy s
  | None => false
  end.

(** An object whose values are strings, as the [headers] of a request:
    the properties in the order they were created. *)
Definition object := list (jsstring * jsstring).

(** [o[k] = v]. *)
Fixpoint set_property (k v : jsstring) (o : object) : object :=
  match o with
  | [] => [(k, v)]
  | (k', v') :: o' =>
      if string_eqb k' k then (k', v) :: o'
      else (k', v') :: set_property k v o'
  end.

(** [o[k]]. *)
Fixpoint get_property (k : jsstring) (o : object) : option jsstring :=
  match o with
  | [] => None
  | (k', v) :: o' => if string_eqb k' k then Some v else get_property k o'
  end.

(** [{...a, ...b}]. *)
Definition spread (a b : object) : object :=
  fold_left (fun acc kv => set_property (fst kv) (snd kv) acc) b a.

End Value.

(* ===================================================================== *)
(** ** Effects of the other handlers *)
(* ===================================================================== *)

Module Effect.
Import JS ChatBox Value.

(** A request handed to [fetch]: [body] is the value given to
    [JSON.stringify]. *)
Record request := mk_request {
  url : jsstring;
  method : option jsstring;
  headers : object;
  body : option json
}.

(** What a handler does to the outside, in order. *)
Inductive io :=
| Fetched (r : request)
| Alerted (msg : jsstring)
| Logged (label message : jsstring)
| AudioPlayed (src : jsstring)
| Spoken (utterance : jsstring).

(** What [fetch] brings back: a rejection, or a response with its status,
    its [content-type] header ([None] when there is none) and the text of
    its body. *)
Record response := mk_response {
  status : Z;
  content_type : option jsstring;
  body_text : jsstring
}.

Inductive fetched :=
| FetchFails (message : jsstring)
| FetchGives (r : response).

Section Computations.
Context {S : Type}.

(** A computation over a component state [S] that may throw and logs
    its effects. *)
Definition Eff (A : Type) : Type := S -> outcome A * S * list io.

Definition pure {A} (a : A) : Eff A := fun st => (Ok a, st, []).

Definition and_then {A B} (m : Eff A) (k : A -> Eff B) : Eff B :=
  fun st =>
    match m st with
    | (Ok a, st1, log1) =>
        match k a st1 with
        | (r, st2, log2) => (r, st2, log1 ++ log2)
        end
    | (Throw e, st1, log1) => (Throw e, st1, log1)
    end.

Definition raise {A} (message : jsstring) : Eff A :=
  fun st => (Throw message, st, []).

Definition tell (e : io) : Eff unit := fun st => (Ok tt, st, [e]).

Definition modify (f : S -> S) : Eff unit := fun st => (Ok tt, f st, []).

(** [try { m } catch (err) { handler err }]. *)
Definition catching {A} (m : Eff A) (handler : jsstring -> Eff A) : Eff A :=
  fun st =>
    match m st with
    | (Ok a, st1, log1) => (Ok a, st1, log1)
    | (Throw e, st1, log1) =>
        match handler e st1 with
        | (r, st2, log2) => (r, st2, log1 ++ log2)
        end
    end.

(** [try { m } finally { f }]. *)
Definition ensuring {A} (m : Eff A) (f : Eff unit) : Eff A :=
  fun st =>
    match m st with
    | (r, st1, log1) =>
        match f st1 with
        | (Ok _, st2, log2) => (r, st2, log1 ++ log2)
        | (Throw e, st2, log2) => (Throw e, st2, log1 ++ log2)
        end
    end.

End Computations.

Arguments Eff S A : clear implicits.

(** The three components of a run. *)
Definition outcome_of {S A} (r : outcome A * S * list io) : outcome A :=
  fst (fst r).
Definition final_of {S A} (r : outcome A * S * list io) : S :=
  snd (fst r).
Definition effects_of {S A} (r : outcome A * S * list io) : list io :=
  snd r.

(** The requests, alerts, console errors, utterances and audio sources
    of a log, in order. *)
Definition fetches (log : list io) : list request :=
  flat_map (fun e => match e with Fetched r => [r] | _ => [] end) log.

Definition alerts (log : list io) : list jsstring :=
  flat_map (fun e => match e with Alerted m => [m] | _ => [] end) log.

Definition console_errors (log : list io) : list jsstring :=
  flat_map (fun e => match e with Logged _ m => [m] | _ => [] end) log.

Definition utterances (log : list io) : list jsstring :=
  flat_map (fun e => match e with Spoken u => [u] | _ => [] end) log.

Definition audio_sources (log : list io) : list jsstring :=
  flat_map (fun e => match e with AudioPlayed src => [src] | _ => [] end) log.

Declare Scope eff_scope.
Delimit Scope eff_scope with eff.
Notation "x <- m ;; k" := (and_then m (fun x => k))
  (at level 61, m at next level, right associativity) : eff_scope.
Notation "m ;; k" := (and_then m (fun _ => k))
  (at level 61, right associativity) : eff_scope.

End Effect.

(* ===================================================================== *)
(** ** config.js: apiFetch *)
(* ===================================================================== *)

Module Config.
Import JS ChatBox Value Effect.
Local Open Scope eff_scope.

Definition API_BASE_URL : jsstring := lit "http://localhost:8000".

(** The [options] argument: its [method], [headers] and [body]
    properties, each possibly missing. *)
Record options := mk_options {
  opt_method : option jsstring;
  opt_headers : option object;
  opt_body : option json
}.

(** The default [options = {}]. *)
Definition no_options : options := mk_options None None None.

(** Lines 11-18 (and 46-53): the headers of the request. *)
Definition request_headers (opts : options) (token : option jsstring) : object :=
  let headers :=
    spread [(lit "Content-Type", lit "application/json")]
      (match opt_headers opts with Some h => h | None => [] end) in
  match token with
  | Some (c :: t) => set_property (lit "Authorization") (lit "Bearer " ++ c :: t) headers
  | _ => headers
  end.

(** The response says it is JSON: it has a [content-type] header that
    includes ["application/json"]. *)
Definition says_json (r : response) : bool :=
  present (content_type r)
  && includes (text_or_null (content_type r)) (lit "application/json").

(** The server answers with an ok response that says it is JSON and
    whose body parses to [v]. *)
Definition answers_with (net : fetched) (v : json) : Prop :=
  exists r,
    net = FetchGives r
    /\ says_json r = true
    /\ response_ok (status r) = true
    /\ JSON.parse (body_text r) = Some v.

(** A sample engine and sample responses. *)
Definition sample_engine : engine :=
  mk_engine (fun m _ => m =? 0) (fun m _ => number_to_string m)
    (fun k => lit "Cannot read properties of null (reading '" ++ k ++ lit "')")
    (fun _ => lit "Unexpected token").

Definition json_response (status : Z) (text : jsstring) : fetched :=
  FetchGives (mk_response status (Some (lit "application/json; charset=utf-8")) text).

Definition html_response (status : Z) (text : jsstring) : fetched :=
  FetchGives (mk_response status (Some (lit "text/html")) text).

(** [response.json()]: the body parsed, or a SyntaxError. *)
Definition response_json {S} (en : engine) (r : response) : Eff S json :=
  match JSON.parse (body_text r) with
  | Some v => pure v
  | None => raise (syntax_message en (body_text r))
  end.

(** [`Server error: ${response.status}`]. *)
Definition server_error (r : response) : jsstring :=
  lit "Server error: " ++ number_to_string (status r).

(** [apiFetch(endpoint, options, token)] (lines 7-38). *)
Definition apiFetch {S} (en : engine) (net : fetched) (endpoint : jsstring)
    (opts : options) (token : option jsstring) : Eff S json :=
  catching
    (tell (Fetched (mk_request (API_BASE_URL ++ endpoint) (opt_method opts)
                      (request_headers opts token) (opt_body opts))) ;;
     match net with
     | FetchFails e => raise e
     | FetchGives r =>
         if negb (present (content_type r))
            || negb (includes (text_or_null (content_type r)) (lit "application/json"))
         then
           raise (lit "Server returned non-JSON response: "
                    ++ firstn 100 (body_text r) ++ lit "...")
         else if negb (response_ok (status r)) then
           errorData <- response_json en r ;;
           match read_member en errorData (lit "error") with
           | ReadThrows e => raise e
           | ReadGives (Some v) =>
               if truthy_value en v then raise (to_text en v)
               else raise (server_error r)
           | ReadGives None => raise (server_error r)
           end
         else response_json en r
     end)
    (fun error => tell (Logged (lit "API fetch error:") error) ;; raise error).

End Config.

(* ===================================================================== *)
(** ** ChatBox.js: saving and clearing the chat *)
(* ===================================================================== *)

Module SaveChat.
Import JS ChatBox Value Effect Config.
Local Open Scope eff_scope.

(** Lines 216-220: what is sent for one message. *)
Definition saved_message (en : engine) (m : message) : json :=
  JObject [(lit "sender", JString (sender m));
           (lit "text", JString (text m));
           (lit "citations", value_or en (citations m) (JArray []))].

(** The request of lines 208-222. *)
Definition save_request (en : engine) (p : props) (session_id : jsstring)
    (ms : list message) : request :=
  mk_request (API_BASE_URL ++ lit "/save-chat") (Some (lit "POST"))
    [(lit "Content-Type", lit "application/json");
     (lit "Authorization", lit "Bearer " ++ text_or_null (sessionToken p))]
    (Some (JObject [(lit "session_id", JString session_id);
                    (lit "messages", JArray (map (saved_message en) ms))])).

(** [handleSaveChat] (lines 201-234). *)
Definition handleSaveChat (en : engine) (net : fetched) (p : props)
    : Eff state unit :=
  fun st =>
    match sessionId p, messages st with
    | Some (c :: id), _ :: _ =>
        catching
          (tell (Fetched (save_request en p (c :: id) (messages st))) ;;
           match net with
           | FetchFails e => raise e
           | FetchGives r =>
               if negb (response_ok (status r)) then
                 raise (lit "Failed to save chat: " ++ number_to_string (status r)
                          ++ lit " " ++ body_text r)
               else tell (Alerted (lit "Chat saved successfully!"))
           end)
          (fun err =>
             tell (Logged (lit "Error saving chat:") err) ;;
             tell (Alerted (lit "Error saving chat: " ++ err))) st
    | _, _ => tell (Alerted (lit "No chat history to save.")) st
    end.

(** The guard of [handleSaveChat] stops the call: no session
    identifier, or no message. *)
Definition session_absent_or_empty (p : props) (st : state) : Prop :=
  (sessionId p = None \/ sessionId p = Some []) \/ messages st = [].

(** [clearChat] (lines 236-238): [confirmed] is the answer to
    [window.confirm]. *)
Definition clearChat (confirmed : bool) : Eff state unit :=
  if confirmed then
    modify (fun st => mk_state (question st) [] (loading st))
  else pure tt.

(** The [disabled] attributes of the Ask and Save buttons (lines 316
    and 246). *)
Definition ask_disabled (st : state) : bool :=
  loading st || negb (truthy (trim (question st))).

Definition save_disabled (p : props) (st : state) : bool :=
  negb (present (sessionToken p))
  || match messages st with [] => true | _ :: _ => false end.

End SaveChat.

(* ===================================================================== *)
(** ** VoiceOutput.js *)
(* ===================================================================== *)

Module VoiceOutput.
Import JS ChatBox Value Effect Config.
Local Open Scope eff_scope.

Record state := mk_state {
  isPlaying : bool;
  error : jsstring
}.

Definition setIsPlaying (b : bool) : Eff state unit :=
  modify (fun st => mk_state b (error st)).

Definition setError (e : jsstring) : Eff state unit :=
  modify (fun st => mk_state (isPlaying st) e).

(** [text.slice(0, 200)]. *)
Definition spoken_part (text : jsstring) : jsstring := firstn 200 text.

(** [browserTTS] (lines 10-24): [supported] is
    ['speechSynthesis' in window]. *)
Definition browserTTS (supported : bool) (text : jsstring) : Eff state unit :=
  if supported then tell (Spoken (spoken_part text))
  else setIsPlaying false ;; setError (lit "Text-to-speech not supported").

(** [speakText] (lines 26-58). *)
Definition speakText (en : engine) (net : fetched) (supported : bool)
    (text : jsstring) : Eff state unit :=
  if negb (truthy text) then pure tt
  else
    setIsPlaying true ;;
    setError [] ;;
    catching
      (data <- apiFetch en net (lit "/text-to-speech")
                 (mk_options (Some (lit "POST")) None
                    (Some (JObject [(lit "text", JString (spoken_part text))])))
                 None ;;
       match read_member en data (lit "audio") with
       | ReadThrows e => raise e
       | ReadGives (Some v) =>
           if truthy_value en v then
             tell (AudioPlayed (lit "data:audio/mp3;base64," ++ to_text en v))
           else browserTTS supported text
       | ReadGives None => browserTTS supported text
       end)
      (fun err =>
         tell (Logged (lit "Error with text-to-speech:") err) ;;
         browserTTS supported text).

(** The request [speakText] sends. *)
Definition speech_request (text : jsstring) : request :=
  mk_request (lit "http://localhost:8000/text-to-speech") (Some (lit "POST"))
    [(lit "Content-Type", lit "application/json")]
    (Some (JObject [(lit "text", JString (spoken_part text))])).

(** The handlers put on the audio element and on the utterance
    (lines 42-46 and 13-18). *)
Definition audio_onended : Eff state unit := setIsPlaying false.

Definition audio_onerror (supported : bool) (text : jsstring) : Eff state unit :=
  setIsPlaying false ;; browserTTS supported text.

Definition utterance_onend : Eff state unit := setIsPlaying false.

Definition utterance_onerror (e : jsstring) : Eff state unit :=
  tell (Logged (lit "Speech synthesis error:") e) ;;
  setIsPlaying false ;;
  setError (lit "Text-to-speech not available").

End VoiceOutput.

(* ===================================================================== *)
(** ** DocumentAnalysis.js and UserSessions.js: the callers of apiFetch *)
(* ===================================================================== *)

Module DocumentAnalysis.
Import JS ChatBox Value Effect Config.
Local Open Scope eff_scope.

(** [analysis] is [null] ([None]) until a response is stored. *)
Record state := mk_state {
  analysis : option json;
  loading : bool;
  error : jsstring
}.

Definition setAnalysis (data : json) : Eff state unit :=
  modify (fun st => mk_state (Some data) (loading st) (error st)).

Definition setLoading (b : bool) : Eff state unit :=
  modify (fun st => mk_state (analysis st) b (error st)).

Definition setError (e : jsstring) : Eff state unit :=
  modify (fun st => mk_state (analysis st) (loading st) e).

(** The request [fetchAnalysis] sends: no method (a GET), no body and
    one header. *)
Definition analysis_request (sid : jsstring) : request :=
  mk_request (lit "http://localhost:8000/document-analysis/" ++ sid) None
    [(lit "Content-Type", lit "application/json")] None.

(** [fetchAnalysis] (lines 11-28). *)
Definition fetchAnalysis (en : engine) (net : fetched)
    (sessionId : option jsstring) : Eff state unit :=
  match sessionId with
  | Some (c :: id) =>
      setLoading true ;;
      setError [] ;;
      ensuring
        (catching
           (data <- apiFetch en net (lit "/document-analysis/" ++ c :: id)
                      no_options None ;;
            setAnalysis data)
           (fun err =>
              tell (Logged (lit "Error fetching analysis:") err) ;;
              setError (if truthy err then err
                        else lit "Error loading document analysis")))
        (setLoading false)
  | _ => setError (lit "No session ID available")
  end.

End DocumentAnalysis.

Module UserSessions.
Import JS ChatBox Value Effect Config.
Local Open Scope eff_scope.

Record state := mk_state {
  sessions : json;
  loading : bool;
  error : jsstring
}.

Definition setSessions (v : json) : Eff state unit :=
  modify (fun st => mk_state v (loading st) (error st)).

Definition setLoading (b : bool) : Eff state unit :=
  modify (fun st => mk_state (sessions st) b (error st)).

Definition setError (e : jsstring) : Eff state unit :=
  modify (fun st => mk_state (sessions st) (loading st) e).

(** The request [loadSessions] sends. *)
Definition sessions_request (uid token : jsstring) : request :=
  mk_request (lit "http://localhost:8000/user-sessions/" ++ uid) None
    [(lit "Content-Type", lit "application/json");
     (lit "Authorization", lit "Bearer " ++ token)] None.

(** [loadSessions] (lines 10-31). *)
Definition loadSessions (en : engine) (net : fetched)
    (userId sessionToken : option jsstring) : Eff state unit :=
  match userId, sessionToken with
  | Some (c :: id), Some (d :: token) =>
      setLoading true ;;
      setError [] ;;
      ensuring
        (catching
           (data <- apiFetch en net (lit "/user-sessions/" ++ c :: id)
                      (mk_options None
                         (Some [(lit "Authorization", lit "Bearer " ++ d :: token)])
                         None)
                      None ;;
            match read_member en data (lit "sessions") with
            | ReadThrows e => raise e
            | ReadGives x => setSessions (value_or en x (JArray []))
            end)
           (fun err =>
              tell (Logged (lit "Error loading sessions:") err) ;;
              setError (if truthy err then err
                        else lit "Error loading saved sessions")))
        (setLoading false)
  | _, _ => setError (lit "User not authenticated")
  end.

End UserSessions.

(* ===================================================================== *)
(** ** App.js: the session kept in localStorage *)
(* ===================================================================== *)

Module App.
Import JS ChatBox Value.

(** A value held in a state cell or passed to a handler: [undefined]
    ([None]), or [null], a string, a number and so on. *)
Definition value := option json.

Definition null : value := Some JNull.

(** [ToString] of a value, as [localStorage.setItem] applies it. *)
Definition value_text (en : engine) (v : value) : jsstring :=
  match v with
  | Some j => to_text en j
  | None => lit "undefined"
  end.

(** [localStorage]: its items, each key once. *)
Definition storage := object.

(** [localStorage.removeItem(k)]. *)
Fixpoint remove_item (k : jsstring) (items : storage) : storage :=
  match items with
  | [] => []
  | (k', v) :: rest =>
      if string_eqb k' k then remove_item k rest
      else (k', v) :: remove_item k rest
  end.

(** The [useState] cells of [App] and the storage of the browser. *)
Record state := mk_state {
  darkMode : bool;
  sessionId : value;
  user : value;
  sessionToken : value;
  activeTab : jsstring;
  localStorage : storage
}.

(** [handleLogin(token, userId)] (lines 40-45). *)
Definition handleLogin (en : engine) (token userId : value) (st : state) : state :=
  mk_state (darkMode st) (sessionId st) userId token (activeTab st)
    (set_property (lit "userId") (value_text en userId)
       (set_property (lit "sessionToken") (value_text en token)
          (localStorage st))).

(** [handleLogout] (lines 47-53). *)
Definition handleLogout (st : state) : state :=
  mk_state (darkMode st) null null null (activeTab st)
    (remove_item (lit "userId")
       (remove_item (lit "sessionToken") (localStorage st))).

(** The effect of lines 19-26, run once when the component mounts. *)
Definition restore_session (st : state) : state :=
  match get_property (lit "sessionToken") (localStorage st),
        get_property (lit "userId") (localStorage st) with
  | Some (c :: savedToken), Some (d :: savedUserId) =>
      mk_state (darkMode st) (sessionId st)
        (Some (JString (d :: savedUserId))) (Some (JString (c :: savedToken)))
        (activeTab st) (localStorage st)
  | _, _ => st
  end.

(** The effect of lines 29-38, run when the component mounts and
    whenever [darkMode] changes. *)
Definition store_theme (st : state) : state :=
  mk_state (darkMode st) (sessionId st) (user st) (sessionToken st)
    (activeTab st)
    (set_property (lit "theme")
       (if darkMode st then lit "dark" else lit "light") (localStorage st)).

(** The component as it mounts on a storage (lines 12-16), its two
    effects included: what a reload of the page gives. *)
Definition mount (items : storage) : state :=
  let dark :=
    match get_property (lit "theme") items with
    | Some theme => string_eqb theme (lit "dark")
    | None => false
    end in
  store_theme (restore_session (mk_state dark null null null (lit "chat") items)).

(** The theme button (line 79), with the effect that follows it. *)
Definition toggle_theme (st : state) : state :=
  store_theme
    (mk_state (negb (darkMode st)) (sessionId st) (user st) (sessionToken st)
       (activeTab st) (localStorage st)).

End App.

(* ===================================================================== *)
(** ** The models on small inputs *)
(* ===================================================================== *)

Module ModelChecks.
Import JS TextDecoder ChatBox Observe Samples.

Example split_three_pieces :
  split (lit "a--b--c") (lit "--") = [lit "a"; lit "b"; lit "c"].
Proof. reflexivity. Qed.

Example split_separator_alone :
  split (lit "--") (lit "--") = [[]; []].
Proof. reflexivity. Qed.

Example split_without_separator :
  split (lit "abc") (lit "--") = [lit "abc"].
Proof. reflexivity. Qed.

Example trim_both_ends :
  trim (lit "  [1, 2]  ") = lit "[1, 2]".
Proof. reflexivity. Qed.

Example includes_partial_sentinel :
  includes (lit "text---__CITA") SENTINEL = false.
Proof. reflexivity. Qed.

(** A character cut between two chunks comes out once the second chunk
    is decoded. *)
Example decode_cut_character :
  decoded [[xc3]; [xa9]] = [[]; [233]].
Proof. reflexivity. Qed.

(** A stray continuation byte becomes U+FFFD; a character above the BMP
    becomes a surrogate pair; a leading byte order mark is dropped. *)
Example decode_stray_byte :
  decoded [[x41; x80; x42]] = [[65; 65533; 66]].
Proof. reflexivity. Qed.

Example decode_surrogate_pair :
  decoded [[xf0; x9f; x98; x80]] = [[55357; 56832]].
Proof. reflexivity. Qed.

Example decode_byte_order_mark :
  decoded [[xef; xbb; xbf; x41]] = [[65]].
Proof. reflexivity. Qed.

Example parse_nested :
  JSON.parse (litq " [1, -2.50e+3, true, null, {'a': [], 'b': 'xA'}] ")
  = Some (JArray [JNumber 1 0; JNumber (-250) 1; JBool true; JNull;
                  JObject [(lit "a", JArray []); (lit "b", JString (lit "xA"))]]).
Proof. vm_compute. reflexivity. Qed.

Example parse_rejects :
  map JSON.parse
    [lit "not valid json"; lit ""; lit "[1,]"; lit "01"; lit "1 2"; lit "-";
     lit "1."; litq "{'a':1,}"; litq "'open"; lit "[1"; lit "nul"]
  = repeat None 11.
Proof. vm_compute. reflexivity. Qed.

(** In a sample, an apostrophe stands for the double quote (0x22). *)
Example bytesq_quotes :
  bytesq "{'a':1}" = [x7b; x22; x61; x22; x3a; x31; x7d].
Proof. reflexivity. Qed.

Example status_in_message :
  number_to_string 503 = lit "503".
Proof. reflexivity. Qed.

(** The sample question without a session: an alert and nothing else. *)
Example ask_without_session :
  handleAsk (mk_props None None) (serving [answer_42] EndOfStream) asking
  = (Ok tt, asking, [Alert (lit "Please upload PDFs or load a session first!")]).
Proof. reflexivity. Qed.

(** A response that is not ok: the question, then the error entry. *)
Example ask_refused :
  map text
    (messages (state_of (handleAsk session
                           (mk_env (Response 503 (lit "busy") None) 1 2 3)
                           asking)))
  = [lit "What is the answer?"; lit "Error: Server error: 503 - busy"].
Proof. vm_compute. reflexivity. Qed.

End ModelChecks.

(* ===================================================================== *)
(** ** Facts about the string operations *)
(* ===================================================================== *)

Module JSFacts.
Import JS.

Lemma starts_with_app (pat s t : jsstring) :
  starts_with pat s = true -> starts_with pat (s ++ t) = true.
Proof.
  revert s. induction pat as [|p pat IH]; intros [|c s]; simpl; try easy.
  intros H. apply andb_true_iff in H as [H1 H2].
  rewrite H1. simpl. now apply IH.
Qed.

Lemma starts_with_length (pat s : jsstring) :
  starts_with pat s = true -> (length pat <= length s)%nat.
Proof.
  revert s. induction pat as [|p pat IH]; intros [|c s]; simpl; try easy.
  - lia.
  - intros H. apply andb_true_iff in H as [_ H]. apply IH in H. lia.
Qed.

Lemma starts_with_app_long (pat s t : jsstring) :
  (length pat <= length s)%nat ->
  starts_with pat (s ++ t) = starts_with pat s.
Proof.
  revert s. induction pat as [|p pat IH]; intros [|c s]; simpl; try easy.
  intros H. rewrite IH by lia. reflexivity.
Qed.

Lemma index_of_nil (pat : jsstring) :
  index_of pat [] = if starts_with pat [] then Some O else None.
Proof. reflexivity. Qed.

Lemma index_of_cons (pat : jsstring) (c : Z) (s : jsstring) :
  index_of pat (c :: s) =
  if starts_with pat (c :: s) then Some O else option_map S (index_of pat s).
Proof. reflexivity. Qed.

Lemma index_of_length (pat s : jsstring) (i : nat) :
  index_of pat s = Some i -> (i + length pat <= length s)%nat.
Proof.
  revert i. induction s as [|c s IH]; intros i.
  - rewrite index_of_nil. destruct (starts_with pat []) eqn:E; [|easy].
    intros [= <-]. apply starts_with_length in E. simpl in *. lia.
  - rewrite index_of_cons. destruct (starts_with pat (c :: s)) eqn:E.
    + intros [= <-]. apply starts_with_length in E. simpl in *. lia.
    + destruct (index_of pat s) as [j|]; [|easy].
      intros [= <-]. specialize (IH j eq_refl). simpl. lia.
Qed.

Lemma index_of_app (pat s t : jsstring) (i : nat) :
  index_of pat s = Some i -> index_of pat (s ++ t) = Some i.
Proof.
  revert i. induction s as [|c s IH]; intros i.
  - rewrite index_of_nil. destruct (starts_with pat []) eqn:E; [|easy].
    intros [= <-]. destruct pat; [|easy]. now destruct t.
  - rewrite index_of_cons. simpl app. rewrite index_of_cons.
    destruct (starts_with pat (c :: s)) eqn:E.
    + intros [= <-]. change (c :: s ++ t) with ((c :: s) ++ t).
      now rewrite starts_with_app.
    + destruct (index_of pat s) as [j|] eqn:Ej; [|easy].
      intros [= <-].
      change (c :: s ++ t) with ((c :: s) ++ t).
      rewrite starts_with_app_long, E.
      * now rewrite (IH j).
      * apply index_of_length in Ej. simpl. lia.
Qed.

(** Once a text includes a pattern, every extension of it does. *)
Lemma includes_app (s t pat : jsstring) :
  includes s pat = true -> includes (s ++ t) pat = true.
Proof.
  unfold includes. destruct (index_of pat s) as [i|] eqn:E; [|easy].
  now rewrite (index_of_app _ _ t _ E).
Qed.

Lemma includes_app_false (s t pat : jsstring) :
  includes (s ++ t) pat = false -> includes s pat = false.
Proof.
  intros H. destruct (includes s pat) eqn:E; [|reflexivity].
  now rewrite (includes_app _ t _ E) in H.
Qed.

(** Any number of rounds above the length of the text gives the same
    pieces: [split] never runs out of rounds. *)
Lemma split_rounds_enough (sep : jsstring) :
  sep <> [] ->
  forall (n m : nat) (s : jsstring),
    (length s < n)%nat -> (length s < m)%nat ->
    split_rounds n sep s = split_rounds m sep s.
Proof.
  intros Hsep. induction n as [|n IH]; intros m s Hn Hm; [lia|].
  destruct m as [|m]; [lia|]. simpl.
  destruct (index_of sep s) as [i|] eqn:E; [|reflexivity].
  f_equal. apply index_of_length in E.
  assert (0 < length sep)%nat by (destruct sep; [easy | simpl; lia]).
  apply IH; rewrite length_skipn; lia.
Qed.

Lemma split_unfold (s sep : jsstring) :
  sep <> [] ->
  split s sep =
  match index_of sep s with
  | None => [s]
  | Some i => firstn i s :: split (skipn (i + length sep) s) sep
  end.
Proof.
  intros Hsep. unfold split at 1.
  change (split_rounds (S (length s)) sep s)
    with (match index_of sep s with
          | None => [s]
          | Some i =>
              firstn i s :: split_rounds (length s) sep (skipn (i + length sep) s)
          end).
  destruct (index_of sep s) as [i|] eqn:E; [|reflexivity].
  f_equal. unfold split. apply index_of_length in E.
  assert (0 < length sep)%nat by (destruct sep; [easy | simpl; lia]).
  apply split_rounds_enough; trivial; rewrite length_skipn; lia.
Qed.

(** A text of white space only trims to the empty string. *)
Lemma trim_blank (s : jsstring) :
  forallb is_space s = true -> trim s = [].
Proof.
  intros H. unfold trim.
  assert (E : trim_start s = []).
  { induction s as [|c s IH]; [reflexivity|].
    cbn [forallb] in H. apply andb_true_iff in H as [Hc Hs].
    cbn [trim_start]. rewrite Hc. now apply IH. }
  now rewrite E.
Qed.

End JSFacts.

(* ===================================================================== *)
(** ** Facts about the read loop *)
(* ===================================================================== *)

Module LoopFacts.
Import JS TextDecoder ChatBox Observe JSFacts.

(** Decoding is indifferent to where a chunk is cut: the state carries
    an unfinished sequence over to the next call. *)
Lemma decode_app (d : decoder) (x y : list byte) :
  decode d (x ++ y) =
  let (d1, o1) := decode d x in
  let (d2, o2) := decode d1 y in
  (d2, o1 ++ o2).
Proof.
  revert d. induction x as [|b x IH]; intros d.
  - cbn [app decode]. now destruct (decode d y).
  - cbn [app decode].
    destruct (handler (utf8 d) (byte_value b)) as [st cps].
    destruct (serialize_all (bom_seen d) cps) as [seen out].
    rewrite IH.
    destruct (decode (mk_decoder st seen) x) as [d1 o1].
    destruct (decode d1 y) as [d2 o2].
    now rewrite app_assoc.
Qed.

Lemma SENTINEL_not_nil : SENTINEL <> [].
Proof. discriminate. Qed.

(** [parts[0]] is the text before the first sentinel. *)
Lemma split_first (b : jsstring) :
  nth_error (split b SENTINEL) 0 = Some (before_first b).
Proof.
  rewrite split_unfold by apply SENTINEL_not_nil. unfold before_first.
  destruct (index_of SENTINEL b); reflexivity.
Qed.

(** [parts[1]] stops at the second sentinel. *)
Lemma split_second (b : jsstring) :
  includes b SENTINEL = true ->
  nth_error (split b SENTINEL) 1 = Some (between_first_two b).
Proof.
  unfold includes. intros H.
  rewrite split_unfold by apply SENTINEL_not_nil.
  unfold between_first_two, after_first.
  destruct (index_of SENTINEL b) as [i|]; [|easy].
  cbn [nth_error]. apply split_first.
Qed.

Lemma raw_capture_between (b : jsstring) :
  includes b SENTINEL = true -> raw_capture b = between_first_two b.
Proof. intros H. unfold raw_capture. now rewrite split_second. Qed.

Lemma with_text_twice (m : message) (a b : jsstring) :
  with_text (with_text m a) b = with_text m b.
Proof. reflexivity. Qed.

Lemma with_text_same (m : message) : with_text m (text m) = m.
Proof. now destruct m. Qed.

Lemma replace_last_snoc (m x : message) (l : list message) :
  replace_last m (l ++ [x]) = l ++ [m].
Proof.
  unfold replace_last. destruct (l ++ [x]) eqn:E.
  - now destruct l.
  - rewrite <- E. now rewrite removelast_last.
Qed.

Lemma replace_last_twice (m m' : message) (l : list message) :
  replace_last m (replace_last m' l) = replace_last m l.
Proof.
  destruct l as [|x l]; [reflexivity|].
  destruct (exists_last (l := x :: l)) as (l' & y & ->); [easy|].
  now rewrite !replace_last_snoc.
Qed.

Lemma last_default {A} (l : list A) (d d' : A) :
  l <> [] -> last l d = last l d'.
Proof.
  induction l as [|a l IH]; [easy|]. intros _.
  destruct l as [|b l]; [reflexivity|].
  change (last (b :: l) d = last (b :: l) d'). now apply IH.
Qed.

Lemma last_in {A} (l : list A) (d : A) :
  l <> [] -> In (last l d) l.
Proof.
  induction l as [|a l IH]; [easy|]. intros _.
  destruct l as [|b l]; [now left|].
  right. change (In (last (b :: l) d) (b :: l)). now apply IH.
Qed.

Lemma last_cons_default {A} (a d : A) (l : list A) :
  last (a :: l) d = last l a.
Proof.
  destruct l as [|b l]; [reflexivity|].
  change (last (b :: l) d = last (b :: l) a). now apply last_default.
Qed.

(** What the read loop does, from the buffers the chunks produce: it
    installs one transcript for every buffer without the sentinel, and
    leaves at the first buffer with it, or at the end of the stream. *)
Lemma read_loop_run (pending : list (list byte)) :
  forall fin dec buffer cd bot st,
    text bot = buffer ->
    read_loop pending fin dec buffer cd bot st =
    let (quiet, hit) := until_sentinel (buffers buffer (decode_chunks dec pending)) in
    (match hit with
     | Some b => Ok (with_text bot (before_first b), trim (between_first_two b))
     | None =>
         match fin with
         | EndOfStream => Ok (with_text bot (last quiet buffer), cd)
         | StreamError e => Throw e
         end
     end,
     mk_state (question st)
       (match quiet with
        | [] => messages st
        | _ :: _ => loop_shows bot (messages st) (last quiet buffer)
        end)
       (loading st),
     map (fun b => SetMessages LoopUpdate (loop_shows bot (messages st) b)) quiet).
Proof.
  induction pending as [|value rest IH]; intros fin dec buffer cd bot st Hbot.
  - cbn. subst buffer. rewrite with_text_same.
    destruct st; destruct fin; reflexivity.
  - cbn [read_loop decode_chunks].
    destruct (decode dec value) as [dec' piece].
    cbn [buffers until_sentinel].
    destruct (includes (buffer ++ piece) SENTINEL) eqn:E.
    + unfold ret. rewrite split_first, split_second by exact E.
      destruct st; reflexivity.
    + unfold bind, setMessages.
      rewrite (IH fin dec' (buffer ++ piece) cd
                 (with_text bot (buffer ++ piece))) by reflexivity.
      destruct (until_sentinel (buffers (buffer ++ piece)
                                  (decode_chunks dec' rest))) as [quiet hit].
      cbn [messages question loading app map].
      unfold loop_shows.
      rewrite !with_text_twice, last_cons_default.
      f_equal; [f_equal|].
      * f_equal. destruct quiet; [reflexivity|].
        now rewrite replace_last_twice.
      * f_equal. apply map_ext. intros b.
        now rewrite with_text_twice, replace_last_twice.
Qed.

End LoopFacts.

(* ===================================================================== *)
(** ** Facts about whole calls *)
(* ===================================================================== *)

Module CallFacts.
Import JS TextDecoder ChatBox Observe JSFacts LoopFacts.

Lemma parse_citations_run (payload : jsstring) (m : message) (st : state) :
  parse_citations payload m st =
  (Ok (parsed_message payload m), st, parse_log payload).
Proof.
  unfold parse_citations, parsed_message, parse_log.
  destruct (truthy payload); [|reflexivity].
  destruct (JSON.parse payload); reflexivity.
Qed.

(** The [try] block on an ok response that streams [cs]. *)
Lemma ask_stream_run (p : props) (env : environment) (q sid : jsstring)
    (cs : list (list byte)) (fin : stream_end) (st : state) :
  streams env cs fin ->
  ask_stream p env q sid st =
  let base := messages st in
  let (quiet, hit) := until_sentinel (buffers [] (decoded cs)) in
  let head := stream_log p env q sid base quiet in
  match hit, fin with
  | None, StreamError e =>
      (Throw e,
       mk_state (question st)
         (base ++ [with_text (bot_message env) (last quiet [])]) (loading st),
       head)
  | _, _ =>
      let final := base ++ [final_message env quiet hit] in
      (Ok tt, mk_state (question st) final (loading st),
       head ++ parse_log (exit_payload hit) ++ [SetMessages FinalUpdate final])
  end.
Proof.
  intros (status & txt & Hnet & Hok).
  unfold ask_stream, apiStream, bind at 1 2, emit.
  rewrite Hnet, Hok. cbn [negb ret app chunks ending].
  unfold bind at 1, setMessages at 1.
  cbn [messages question loading].
  unfold bind at 1.
  rewrite read_loop_run by reflexivity.
  fold (bot_message env). unfold decoded.
  destruct (until_sentinel (buffers [] (decode_chunks new_TextDecoder cs)))
    as [quiet hit].
  cbn [messages question loading].
  assert (Hshow : forall b,
             loop_shows (bot_message env) (messages st ++ [bot_message env]) b
             = messages st ++ [with_text (bot_message env) b]).
  { intros b. unfold loop_shows. apply replace_last_snoc. }
  assert (Hmap : map (fun b => SetMessages LoopUpdate
                     (loop_shows (bot_message env)
                        (messages st ++ [bot_message env]) b)) quiet
                 = map (fun b => SetMessages LoopUpdate
                     (messages st ++ [with_text (bot_message env) b])) quiet).
  { apply map_ext. intros b. now rewrite Hshow. }
  assert (Hlast : match quiet with
                  | [] => messages st ++ [bot_message env]
                  | _ :: _ => loop_shows (bot_message env)
                                (messages st ++ [bot_message env]) (last quiet [])
                  end = messages st ++ [with_text (bot_message env) (last quiet [])]).
  { destruct quiet; [reflexivity | apply Hshow]. }
  rewrite Hmap, Hlast.
  unfold stream_log, final_message, exit_message, exit_payload.
  destruct hit as [b|]; [|destruct fin as [|e]].
  - unfold bind. rewrite parse_citations_run. unfold setMessages.
    cbn [messages question loading]. rewrite replace_last_snoc.
    reflexivity.
  - unfold bind. rewrite parse_citations_run. unfold setMessages.
    cbn [messages question loading]. rewrite replace_last_snoc.
    reflexivity.
  - cbn [app]. rewrite ?app_nil_r. reflexivity.
Qed.

(** A call that passes the guards: the question is shown, the [try]
    block runs, a thrown error becomes an entry of the transcript, and
    the [finally] block runs in both cases. *)
Lemma handleAsk_guarded (p : props) (env : environment) (st : state)
    (c : Z) (id : jsstring) :
  sessionId p = Some (c :: id) ->
  trim (question st) <> [] ->
  handleAsk p env st =
  let base := messages st ++ [user_message env st] in
  let opening := [SetMessages AppendUser base; SetLoading true] in
  let closing := [SetLoading false; SetQuestion []] in
  match ask_stream p env (question st) (c :: id) (mk_state (question st) base true) with
  | (Ok _, st2, log) =>
      (Ok tt, mk_state [] (messages st2) false, opening ++ log ++ closing)
  | (Throw e, st2, log) =>
      let failed := messages st2 ++ [error_entry env e] in
      (Ok tt, mk_state [] failed false,
       opening ++ log
       ++ [ConsoleError (lit "Error asking question:");
           SetMessages AppendError failed] ++ closing)
  end.
Proof.
  intros Hsid Hq. unfold handleAsk. rewrite Hsid.
  destruct (trim (question st)) as [|u t] eqn:Et; [easy|].
  cbn [truthy negb].
  unfold bind at 1, setMessages at 1. fold (user_message env st).
  unfold bind at 1, setLoading at 1. cbn [messages question loading].
  unfold finally, try_catch.
  destruct (ask_stream p env (question st) (c :: id) _) as [[[u'|e] st2] log].
  - destruct u'. cbn. rewrite ?app_nil_r. reflexivity.
  - cbn. rewrite <- !app_assoc. reflexivity.
Qed.

(** A call whose response streams [cs]. *)
Lemma handleAsk_streams (p : props) (env : environment) (st : state)
    (c : Z) (id : jsstring) (cs : list (list byte)) (fin : stream_end) :
  sessionId p = Some (c :: id) ->
  trim (question st) <> [] ->
  streams env cs fin ->
  handleAsk p env st =
  let base := messages st ++ [user_message env st] in
  let (quiet, hit) := until_sentinel (buffers [] (decoded cs)) in
  match hit, fin with
  | None, StreamError e =>
      let shown := base ++ [with_text (bot_message env) (last quiet [])] in
      let failed := shown ++ [error_entry env e] in
      (Ok tt, mk_state [] failed false,
       failed_log p env (question st) (c :: id) base quiet failed)
  | _, _ =>
      let final := base ++ [final_message env quiet hit] in
      (Ok tt, mk_state [] final false,
       finalized_log p env (question st) (c :: id) base quiet
         (exit_payload hit) final)
  end.
Proof.
  intros Hsid Hq Hs.
  rewrite (handleAsk_guarded p env st c id Hsid Hq).
  cbv zeta.
  rewrite (ask_stream_run p env (question st) (c :: id) cs fin _ Hs).
  cbv zeta. cbn [messages question loading].
  unfold finalized_log, failed_log, opening_log, closing_log.
  destruct (until_sentinel (buffers [] (decoded cs))) as [quiet hit].
  destruct hit as [b|]; [|destruct fin as [|e]].
  - cbn [messages]. now rewrite <- !app_assoc.
  - cbn [messages]. now rewrite <- !app_assoc.
  - cbn [messages]. reflexivity.
Qed.

(** A call whose request fails before any byte of the answer is read. *)
Lemma handleAsk_refused (p : props) (env : environment) (st : state)
    (c : Z) (id e : jsstring) :
  sessionId p = Some (c :: id) ->
  trim (question st) <> [] ->
  (network env = Rejected e
   \/ (exists status txt body,
         network env = Response status txt body
         /\ response_ok status = false
         /\ e = lit "Server error: " ++ number_to_string status ++ lit " - " ++ txt)
   \/ (exists status txt,
         network env = Response status txt None
         /\ response_ok status = true /\ e = lit "No response body")) ->
  handleAsk p env st =
  let base := messages st ++ [user_message env st] in
  let failed := base ++ [error_entry env e] in
  (Ok tt, mk_state [] failed false,
   [SetMessages AppendUser base; SetLoading true;
    Fetch (lit "/ask") (question st) (c :: id) (sessionToken p);
    ConsoleError (lit "Error asking question:");
    SetMessages AppendError failed;
    SetLoading false; SetQuestion []]).
Proof.
  intros Hsid Hq Hfail.
  rewrite (handleAsk_guarded p env st c id Hsid Hq). cbv zeta.
  assert (Hrun : ask_stream p env (question st) (c :: id)
                   (mk_state (question st) (messages st ++ [user_message env st]) true)
                 = (Throw e,
                    mk_state (question st) (messages st ++ [user_message env st]) true,
                    [Fetch (lit "/ask") (question st) (c :: id) (sessionToken p)])).
  { unfold ask_stream, apiStream, bind at 1 2, emit.
    destruct Hfail as [H | [(status & txt & body & H & Hok & ->)
                           | (status & txt & H & Hok & ->)]];
      rewrite H; try rewrite Hok; reflexivity. }
  rewrite Hrun. reflexivity.
Qed.

End CallFacts.

(* ===================================================================== *)
(** ** Facts about buffers, sightings and logs *)
(* ===================================================================== *)

Module ObserveFacts.
Import JS TextDecoder ChatBox Observe JSFacts LoopFacts.

Lemma buffers_length (b : jsstring) (ps : list jsstring) :
  length (buffers b ps) = length ps.
Proof.
  revert b. induction ps as [|p ps IH]; intros b; simpl; [reflexivity|].
  now rewrite IH.
Qed.

(** The last buffer holds everything. *)
Lemma buffers_last (b : jsstring) (ps : list jsstring) :
  last (buffers b ps) b = b ++ concat ps.
Proof.
  revert b. induction ps as [|p ps IH]; intros b.
  - simpl. now rewrite app_nil_r.
  - cbn [buffers concat]. rewrite last_cons_default, IH.
    now rewrite app_assoc.
Qed.

(** Each buffer is the one before it followed by the next piece. *)
Lemma buffers_step (b : jsstring) (ps : list jsstring) :
  forall i x y,
    nth_error (buffers b ps) i = Some x ->
    nth_error (buffers b ps) (S i) = Some y ->
    exists d, nth_error ps (S i) = Some d /\ y = x ++ d.
Proof.
  revert b. induction ps as [|p ps IH]; intros b i x y.
  - destruct i; discriminate.
  - cbn [buffers]. destruct i as [|i].
    + cbn [nth_error]. intros [= <-].
      destruct ps as [|p' ps]; cbn; [discriminate|].
      intros [= <-]. now exists p'.
    + cbn [nth_error]. intros Hx Hy.
      exact (IH (b ++ p) i x y Hx Hy).
Qed.

Lemma buffers_prefix (b : jsstring) (ps : list jsstring) (x : jsstring) :
  In x (buffers b ps) -> exists t, b ++ concat ps = x ++ t.
Proof.
  revert b. induction ps as [|p ps IH]; intros b; cbn [buffers concat In].
  - easy.
  - intros [<- | H].
    + exists (concat ps). now rewrite app_assoc.
    + apply IH in H as [t Ht]. exists t. now rewrite <- Ht, app_assoc.
Qed.

Lemma until_quiet (b : jsstring) (ps : list jsstring) :
  includes (b ++ concat ps) SENTINEL = false ->
  until_sentinel (buffers b ps) = (buffers b ps, None).
Proof.
  revert b. induction ps as [|p ps IH]; intros b H; cbn [buffers until_sentinel].
  - reflexivity.
  - cbn [concat] in H. rewrite app_assoc in H.
    rewrite (includes_app_false _ _ _ H), (IH _ H). reflexivity.
Qed.

Lemma until_none (bs quiet : list jsstring) :
  until_sentinel bs = (quiet, None) ->
  quiet = bs /\ Forall (fun x => includes x SENTINEL = false) bs.
Proof.
  revert quiet. induction bs as [|b bs IH]; intros quiet; cbn [until_sentinel].
  - intros [= <-]. split; [reflexivity | constructor].
  - destruct (includes b SENTINEL) eqn:E; [discriminate|].
    destruct (until_sentinel bs) as [q h]. intros [= <- ->].
    destruct (IH q eq_refl) as [-> HF]. split; [reflexivity|].
    now constructor.
Qed.

Lemma until_hit (bs quiet : list jsstring) (b : jsstring) :
  until_sentinel bs = (quiet, Some b) ->
  includes b SENTINEL = true
  /\ (exists rest, bs = quiet ++ b :: rest)
  /\ Forall (fun x => includes x SENTINEL = false) quiet.
Proof.
  revert quiet. induction bs as [|x bs IH]; intros quiet; cbn [until_sentinel].
  - discriminate.
  - destruct (includes x SENTINEL) eqn:E.
    + intros [= <- <-]. repeat split; [exact E | now exists bs | constructor].
    + destruct (until_sentinel bs) as [q h]. intros [= <- ->].
      destruct (IH q eq_refl) as (Hb & (rest & ->) & HF).
      repeat split; [exact Hb | now exists rest | now constructor].
Qed.

Lemma decoded_length (cs : list (list byte)) :
  length (decoded cs) = length cs.
Proof.
  unfold decoded. generalize new_TextDecoder.
  induction cs as [|c cs IH]; intros d; cbn [decode_chunks]; [reflexivity|].
  destruct (decode d c) as [d' piece]. cbn [length]. now rewrite IH.
Qed.

(** The sentinel is never sighted exactly when the whole decoded input
    does not include it. *)
Lemma first_sighting_none (cs : list (list byte)) :
  first_sighting cs = None <-> includes (received cs) SENTINEL = false.
Proof.
  unfold first_sighting, received. split.
  - destruct (until_sentinel (buffers [] (decoded cs))) as [quiet hit] eqn:E.
    cbn [snd]. intros ->. apply until_none in E as [_ HF].
    destruct (decoded cs) as [|p ps] eqn:Ed; [reflexivity|].
    rewrite <- Ed in *. rewrite Forall_forall in HF.
    change (concat (decoded cs)) with ([] ++ concat (decoded cs)).
    rewrite <- buffers_last. apply HF, last_in.
    rewrite Ed. discriminate.
  - intros H. change (concat (decoded cs)) with ([] ++ concat (decoded cs)) in H.
    now rewrite (until_quiet _ _ H).
Qed.

Lemma first_sighting_some (cs : list (list byte)) (b : jsstring) :
  first_sighting cs = Some b ->
  includes b SENTINEL = true /\ exists t, received cs = b ++ t.
Proof.
  unfold first_sighting, received.
  destruct (until_sentinel (buffers [] (decoded cs))) as [quiet hit] eqn:E.
  cbn [snd]. intros ->. apply until_hit in E as (Hb & (rest & Hbs) & _).
  split; [exact Hb|].
  apply (buffers_prefix [] (decoded cs) b).
  rewrite Hbs. apply in_elt.
Qed.

(** Text that arrives after the first sentinel does not move it. *)
Lemma before_first_app (b t : jsstring) :
  includes b SENTINEL = true -> before_first (b ++ t) = before_first b.
Proof.
  unfold includes, before_first.
  destruct (index_of SENTINEL b) as [i|] eqn:E; [|easy]. intros _.
  rewrite (index_of_app _ _ t _ E). apply index_of_length in E.
  rewrite firstn_app. replace (i - length b)%nat with 0%nat by lia.
  cbn [firstn]. now rewrite app_nil_r.
Qed.

(** The text before the first sentinel holds no sentinel. *)
Lemma before_first_quiet (s : jsstring) :
  includes (before_first s) SENTINEL = false.
Proof.
  unfold before_first.
  destruct (index_of SENTINEL s) as [i|] eqn:E.
  - unfold includes.
    destruct (index_of SENTINEL (firstn i s)) as [j|] eqn:Ej; [|reflexivity].
    exfalso.
    pose proof (index_of_length _ _ _ Ej) as Hlen.
    pose proof (index_of_app _ _ (skipn i s) _ Ej) as Happ.
    rewrite firstn_skipn, E in Happ. injection Happ as ->.
    rewrite length_firstn in Hlen.
    change (length SENTINEL) with 19%nat in Hlen. lia.
  - unfold includes. now rewrite E.
Qed.

Lemma last_message_snoc (l : list message) (m : message) :
  last_message (l ++ [m]) = Some m.
Proof. unfold last_message. now rewrite rev_unit. Qed.

Lemma parsed_message_text (payload : jsstring) (m : message) :
  text (parsed_message payload m) = text m.
Proof.
  unfold parsed_message. destruct (truthy payload); [|reflexivity].
  destruct (JSON.parse payload); reflexivity.
Qed.

(** At a sighting, the text before the sentinel is the text before the
    first sentinel of the whole decoded input. *)
Lemma sighting_before_first (cs : list (list byte)) (quiet : list jsstring)
    (b : jsstring) :
  until_sentinel (buffers [] (decoded cs)) = (quiet, Some b) ->
  includes b SENTINEL = true
  /\ before_first b = before_first (received cs).
Proof.
  intros E. destruct (first_sighting_some cs b) as (Hb & t & Ht).
  - unfold first_sighting. now rewrite E.
  - split; [exact Hb|]. rewrite Ht. symmetry. now apply before_first_app.
Qed.

Lemma texts_of_snapshots (bot : message) (quiet : list jsstring) :
  map text (map (with_text bot) quiet) = quiet.
Proof.
  rewrite map_map. cbn [text with_text]. apply map_id.
Qed.

Lemma nth_error_last {A} (l : list A) (d : A) :
  l <> [] -> nth_error l (length l - 1) = Some (last l d).
Proof.
  intros H. destruct (exists_last H) as (l' & x & ->).
  rewrite last_last, length_app. cbn [length].
  replace (length l' + 1 - 1)%nat with (length l' + 0)%nat by lia.
  now rewrite nth_error_app2, Nat.add_comm, Nat.add_sub by lia.
Qed.

Lemma last_message_last (l : list message) (d : message) :
  l <> [] -> last_message l = Some (last l d).
Proof.
  intros H. destruct (exists_last H) as (l' & x & ->).
  now rewrite last_message_snoc, last_last.
Qed.

Lemma last_map {A B} (f : A -> B) (l : list A) (d : A) :
  last (map f l) (f d) = f (last l d).
Proof.
  induction l as [|a l IH]; [reflexivity|].
  cbn [map]. rewrite !last_cons_default.
  destruct l as [|b l]; [reflexivity|].
  rewrite <- (last_default (b :: l) d a) by discriminate.
  rewrite <- IH. apply last_default. discriminate.
Qed.

Lemma flat_map_loop {B} (f : event -> list B) (g : jsstring -> list message)
    (quiet : list jsstring) :
  flat_map f (map (fun b => SetMessages LoopUpdate (g b)) quiet)
  = flat_map (fun b => f (SetMessages LoopUpdate (g b))) quiet.
Proof.
  induction quiet as [|b quiet IH]; cbn; [reflexivity|]. now rewrite IH.
Qed.

Lemma flat_map_single {A B} (h : A -> B) (l : list A) :
  flat_map (fun a => [h a]) l = map h l.
Proof.
  induction l as [|a l IH]; cbn; [reflexivity|]. now rewrite IH.
Qed.

Lemma flat_map_none {A B} (l : list A) :
  flat_map (fun _ : A => @nil B) l = [].
Proof. induction l as [|a l IH]; cbn; [reflexivity | exact IH]. Qed.

Section OpeningLog.
Variables (p : props) (env : environment) (q sid : jsstring).
Variables (base : list message) (quiet : list jsstring).

Lemma opening_loop_snapshots :
  loop_snapshots (opening_log p env q sid base quiet)
  = map (with_text (bot_message env)) quiet.
Proof.
  unfold loop_snapshots, opening_log, stream_log.
  cbn [flat_map loop_snapshot_of]. rewrite flat_map_loop.
  cbn [loop_snapshot_of].
  rewrite (flat_map_ext _ (fun b => [with_text (bot_message env) b])).
  - apply flat_map_single.
  - intros b. cbv beta. now rewrite last_message_snoc.
Qed.

Lemma opening_final :
  flat_map final_snapshot_of (opening_log p env q sid base quiet)
  = [].
Proof.
  unfold opening_log, stream_log.
  cbn [flat_map final_snapshot_of]. rewrite flat_map_loop.
  apply flat_map_none.
Qed.

Lemma opening_snapshots :
  snapshots (opening_log p env q sid base quiet)
  = map (with_text (bot_message env)) quiet.
Proof.
  unfold snapshots, opening_log, stream_log.
  cbn [flat_map snapshot_of loop_snapshot_of final_snapshot_of].
  rewrite flat_map_loop.
  cbn [snapshot_of loop_snapshot_of final_snapshot_of].
  rewrite (flat_map_ext _ (fun b => [with_text (bot_message env) b])).
  - apply flat_map_single.
  - intros b. unfold snapshot_of. cbn [loop_snapshot_of final_snapshot_of].
    now rewrite last_message_snoc.
Qed.

Lemma opening_created :
  flat_map created_of (opening_log p env q sid base quiet) = [bot_message env].
Proof.
  unfold opening_log, stream_log.
  cbn [flat_map created_of]. rewrite flat_map_loop, last_message_snoc.
  cbn [created_of option_list]; cbn [app]. now rewrite flat_map_none.
Qed.

Lemma opening_error_entries : error_entries (opening_log p env q sid base quiet) = [].
Proof.
  unfold error_entries, opening_log, stream_log.
  cbn [flat_map error_entry_of]. rewrite flat_map_loop.
  apply flat_map_none.
Qed.

Lemma opening_parse_calls : parse_calls (opening_log p env q sid base quiet) = [].
Proof.
  unfold parse_calls, opening_log, stream_log.
  cbn [flat_map parse_call_of]. rewrite flat_map_loop.
  apply flat_map_none.
Qed.

Lemma opening_citation_writes :
  citation_writes (opening_log p env q sid base quiet)
  = [].
Proof.
  unfold citation_writes, opening_log, stream_log.
  cbn [flat_map citation_write_of]. rewrite flat_map_loop.
  apply flat_map_none.
Qed.

Lemma opening_transcripts :
  transcripts (opening_log p env q sid base quiet)
  = base :: (base ++ [bot_message env])
    :: map (fun b => base ++ [with_text (bot_message env) b]) quiet.
Proof.
  unfold transcripts, opening_log, stream_log.
  cbn [flat_map transcript_of]. rewrite flat_map_loop.
  cbn [transcript_of]. now rewrite flat_map_single.
Qed.

Lemma opening_after_write (rest : list event) :
  after_write ((opening_log p env q sid base quiet) ++ rest) = after_write rest.
Proof.
  unfold opening_log, stream_log. cbn [after_write].
  rewrite <- !app_comm_cons. cbn [after_write].
  induction quiet as [|b l IH]; cbn; [reflexivity | exact IH].
Qed.
End OpeningLog.

Lemma parse_log_snapshots (payload : jsstring) :
  snapshots (parse_log payload) = []
  /\ loop_snapshots (parse_log payload) = []
  /\ flat_map final_snapshot_of (parse_log payload) = []
  /\ error_entries (parse_log payload) = []
  /\ transcripts (parse_log payload) = [].
Proof.
  unfold parse_log. destruct (truthy payload); [|easy].
  destruct (JSON.parse payload); easy.
Qed.

Lemma parse_log_calls (payload : jsstring) :
  parse_calls (parse_log payload) = if truthy payload then [payload] else [].
Proof.
  unfold parse_log. destruct (truthy payload); [|easy].
  destruct (JSON.parse payload); easy.
Qed.

Lemma parse_log_writes (payload : jsstring) :
  citation_writes (parse_log payload)
  = if truthy payload then
      match JSON.parse payload with Some v => [v] | None => [] end
    else [].
Proof.
  unfold parse_log. destruct (truthy payload); [|easy].
  destruct (JSON.parse payload); easy.
Qed.

Lemma parse_log_after_write (payload : jsstring) (rest : list event) :
  after_write (parse_log payload ++ rest)
  = match citation_writes (parse_log payload) with
    | [] => after_write rest
    | _ :: _ => rest
    end.
Proof.
  unfold parse_log. destruct (truthy payload); [|easy].
  destruct (JSON.parse payload); easy.
Qed.

Section FinalizedLog.
Variables (p : props) (env : environment) (q sid : jsstring).
Variables (base : list message) (quiet : list jsstring).
Variables (payload : jsstring) (m : message).

Lemma finalized_final_snapshot :
  final_snapshot (finalized_log p env q sid base quiet payload (base ++ [m]))
  = Some m.
Proof.
  unfold final_snapshot, finalized_log.
  rewrite !flat_map_app, opening_final.
  destruct (parse_log_snapshots payload) as (_ & _ & -> & _).
  cbn [app flat_map final_snapshot_of closing_log].
  now rewrite last_message_snoc.
Qed.

Lemma finalized_snapshots :
  snapshots (finalized_log p env q sid base quiet payload (base ++ [m]))
  = map (with_text (bot_message env)) quiet ++ [m].
Proof.
  unfold finalized_log, snapshots.
  rewrite !flat_map_app. fold (snapshots (opening_log p env q sid base quiet)).
  rewrite opening_snapshots. fold (snapshots (parse_log payload)).
  destruct (parse_log_snapshots payload) as (-> & _).
  unfold closing_log, snapshot_of.
  cbn [flat_map loop_snapshot_of final_snapshot_of].
  now rewrite last_message_snoc.
Qed.

Lemma finalized_loop_snapshots :
  loop_snapshots (finalized_log p env q sid base quiet payload (base ++ [m]))
  = map (with_text (bot_message env)) quiet.
Proof.
  unfold finalized_log, loop_snapshots.
  rewrite !flat_map_app.
  fold (loop_snapshots (opening_log p env q sid base quiet)).
  rewrite opening_loop_snapshots. fold (loop_snapshots (parse_log payload)).
  destruct (parse_log_snapshots payload) as (_ & -> & _).
  cbn. now rewrite app_nil_r.
Qed.

Lemma finalized_created :
  created (finalized_log p env q sid base quiet payload (base ++ [m]))
  = Some (bot_message env).
Proof.
  unfold finalized_log, created.
  rewrite flat_map_app, opening_created. reflexivity.
Qed.

Lemma finalized_error_entries :
  error_entries (finalized_log p env q sid base quiet payload (base ++ [m]))
  = [].
Proof.
  unfold finalized_log, error_entries.
  rewrite !flat_map_app.
  fold (error_entries (opening_log p env q sid base quiet)).
  rewrite opening_error_entries. fold (error_entries (parse_log payload)).
  destruct (parse_log_snapshots payload) as (_ & _ & _ & -> & _).
  reflexivity.
Qed.

Lemma finalized_parse_calls :
  parse_calls (finalized_log p env q sid base quiet payload (base ++ [m]))
  = if truthy payload then [payload] else [].
Proof.
  unfold finalized_log, parse_calls.
  rewrite !flat_map_app.
  fold (parse_calls (opening_log p env q sid base quiet)).
  rewrite opening_parse_calls. fold (parse_calls (parse_log payload)).
  rewrite parse_log_calls. cbn. now rewrite app_nil_r.
Qed.

Lemma finalized_citation_writes :
  citation_writes (finalized_log p env q sid base quiet payload (base ++ [m]))
  = if truthy payload then
      match JSON.parse payload with Some v => [v] | None => [] end
    else [].
Proof.
  unfold finalized_log, citation_writes.
  rewrite !flat_map_app.
  fold (citation_writes (opening_log p env q sid base quiet)).
  rewrite opening_citation_writes. fold (citation_writes (parse_log payload)).
  rewrite parse_log_writes. cbn. now rewrite app_nil_r.
Qed.

Lemma finalized_after_write :
  after_write (finalized_log p env q sid base quiet payload (base ++ [m]))
  = match citation_writes (parse_log payload) with
    | [] => []
    | _ :: _ => SetMessages FinalUpdate (base ++ [m]) :: closing_log
    end.
Proof.
  unfold finalized_log.
  rewrite opening_after_write, parse_log_after_write.
  destruct (citation_writes (parse_log payload)); reflexivity.
Qed.

Lemma finalized_transcripts :
  transcripts (finalized_log p env q sid base quiet payload (base ++ [m]))
  = (base :: (base ++ [bot_message env])
     :: map (fun b => base ++ [with_text (bot_message env) b]) quiet)
    ++ [base ++ [m]].
Proof.
  unfold finalized_log, transcripts.
  rewrite !flat_map_app.
  fold (transcripts (opening_log p env q sid base quiet)).
  rewrite opening_transcripts. fold (transcripts (parse_log payload)).
  destruct (parse_log_snapshots payload) as (_ & _ & _ & _ & ->).
  reflexivity.
Qed.
End FinalizedLog.

Section FailedLog.
Variables (p : props) (env : environment) (q sid : jsstring).
Variables (base : list message) (quiet : list jsstring).
Variables (shown : list message) (entry : message).

Lemma failed_snapshots :
  snapshots (failed_log p env q sid base quiet (shown ++ [entry]))
  = map (with_text (bot_message env)) quiet.
Proof.
  unfold failed_log, snapshots.
  rewrite !flat_map_app. fold (snapshots (opening_log p env q sid base quiet)).
  rewrite opening_snapshots. cbn. now rewrite app_nil_r.
Qed.

Lemma failed_loop_snapshots :
  loop_snapshots (failed_log p env q sid base quiet (shown ++ [entry]))
  = map (with_text (bot_message env)) quiet.
Proof.
  unfold failed_log, loop_snapshots.
  rewrite !flat_map_app.
  fold (loop_snapshots (opening_log p env q sid base quiet)).
  rewrite opening_loop_snapshots. cbn. now rewrite app_nil_r.
Qed.

Lemma failed_created :
  created (failed_log p env q sid base quiet (shown ++ [entry]))
  = Some (bot_message env).
Proof.
  unfold failed_log, created.
  rewrite flat_map_app, opening_created. reflexivity.
Qed.

Lemma failed_final_snapshot :
  final_snapshot (failed_log p env q sid base quiet (shown ++ [entry]))
  = None.
Proof.
  unfold failed_log, final_snapshot.
  rewrite !flat_map_app, opening_final. reflexivity.
Qed.

Lemma failed_error_entries :
  error_entries (failed_log p env q sid base quiet (shown ++ [entry]))
  = [entry].
Proof.
  unfold failed_log, error_entries.
  rewrite !flat_map_app.
  fold (error_entries (opening_log p env q sid base quiet)).
  rewrite opening_error_entries. cbn [app flat_map error_entry_of closing_log].
  now rewrite last_message_snoc.
Qed.

Lemma failed_parse_calls :
  parse_calls (failed_log p env q sid base quiet (shown ++ [entry]))
  = [].
Proof.
  unfold failed_log, parse_calls.
  rewrite !flat_map_app.
  fold (parse_calls (opening_log p env q sid base quiet)).
  rewrite opening_parse_calls. reflexivity.
Qed.

Lemma failed_citation_writes :
  citation_writes (failed_log p env q sid base quiet (shown ++ [entry]))
  = [].
Proof.
  unfold failed_log, citation_writes.
  rewrite !flat_map_app.
  fold (citation_writes (opening_log p env q sid base quiet)).
  rewrite opening_citation_writes. reflexivity.
Qed.

Lemma failed_transcripts :
  transcripts (failed_log p env q sid base quiet (shown ++ [entry]))
  = (base :: (base ++ [bot_message env])
     :: map (fun b => base ++ [with_text (bot_message env) b]) quiet)
    ++ [shown ++ [entry]].
Proof.
  unfold failed_log, transcripts.
  rewrite !flat_map_app.
  fold (transcripts (opening_log p env q sid base quiet)).
  rewrite opening_transcripts. reflexivity.
Qed.
End FailedLog.

End ObserveFacts.

(* ===================================================================== *)
(** ** Facts about trimming and about the citation payload *)
(* ===================================================================== *)

Module PayloadFacts.
Import JS TextDecoder ChatBox Observe.
Import JSFacts LoopFacts ObserveFacts.

Lemma trim_start_split (s : jsstring) :
  exists leading, s = leading ++ trim_start s /\ blank leading.
Proof.
  induction s as [|c s (l & Hl & Hb)]; [now exists []|].
  cbn [trim_start]. destruct (is_space c) eqn:E.
  - exists (c :: l). split; [cbn [app]; now rewrite <- Hl|].
    unfold blank in *. cbn [forallb]. now rewrite E.
  - now exists [].
Qed.

Lemma trim_start_begins (s : jsstring) :
  begins_with_space (trim_start s) = false.
Proof.
  induction s as [|c s IH]; [reflexivity|].
  cbn [trim_start]. destruct (is_space c) eqn:E; [exact IH | exact E].
Qed.

Lemma blank_rev (s : jsstring) : blank s -> blank (rev s).
Proof.
  unfold blank. rewrite !forallb_forall. intros H c Hc.
  apply H. now apply in_rev.
Qed.

Lemma trim_end_split (s : jsstring) :
  exists trailing, s = trim_end s ++ trailing /\ blank trailing.
Proof.
  unfold trim_end. destruct (trim_start_split (rev s)) as (l & Hl & Hb).
  exists (rev l). split; [|now apply blank_rev].
  rewrite <- rev_app_distr, <- Hl. now rewrite rev_involutive.
Qed.

Lemma trim_end_ends (s : jsstring) : ends_with_space (trim_end s) = false.
Proof.
  unfold ends_with_space, trim_end. rewrite rev_involutive.
  apply trim_start_begins.
Qed.

Lemma trim_end_begins (s : jsstring) :
  begins_with_space s = false -> begins_with_space (trim_end s) = false.
Proof.
  destruct (trim_end_split s) as (r & Hr & _).
  destruct (trim_end s) as [|c t]; [reflexivity|].
  intros H. rewrite Hr in H. exact H.
Qed.

(** [trim] takes white space off both ends, nothing else, and leaves
    none at either end. *)
Lemma trim_stripped (s : jsstring) : stripped_of s (trim s).
Proof.
  unfold trim.
  destruct (trim_start_split s) as (l & Hl & Hbl).
  destruct (trim_end_split (trim_start s)) as (r & Hr & Hbr).
  split; [exists l, r; split; [|now split]|split].
  - now rewrite <- Hr.
  - apply trim_end_begins, trim_start_begins.
  - apply trim_end_ends.
Qed.

(** A text that is not blank has a first character that is no white
    space, so what is left of it is not empty. *)
Lemma stripped_empty (raw payload : jsstring) :
  stripped_of raw payload -> (payload = [] <-> blank raw).
Proof.
  intros [(l & r & -> & Hl & Hr) [Hb _]]. unfold blank in *. split.
  - intros ->. cbn [app]. rewrite forallb_app. now rewrite Hl, Hr.
  - rewrite !forallb_app. intros H.
    apply andb_true_iff in H as [_ H]. apply andb_true_iff in H as [H _].
    destruct payload as [|c t]; [reflexivity|].
    cbn in Hb, H. now rewrite Hb in H.
Qed.



Lemma after_first_app (b t : jsstring) :
  includes b SENTINEL = true -> after_first (b ++ t) = after_first b ++ t.
Proof.
  unfold includes, after_first.
  destruct (index_of SENTINEL b) as [i|] eqn:E; [|discriminate].
  intros _. rewrite (index_of_app _ _ t _ E).
  apply index_of_length in E. rewrite skipn_app.
  replace (i + length SENTINEL - length b)%nat with 0%nat by lia.
  reflexivity.
Qed.

(** Text that arrives after the second sentinel does not change what is
    between the first two. *)
Lemma between_first_two_app (b t : jsstring) :
  includes b SENTINEL = true ->
  includes (after_first b) SENTINEL = true ->
  between_first_two (b ++ t) = between_first_two b.
Proof.
  intros Hb Ha. unfold between_first_two.
  rewrite (after_first_app b t Hb). now apply before_first_app.
Qed.

(** The payload has arrived when the second sentinel is in the buffer in
    which the first one is seen, and when the input is one chunk. *)
Lemma second_sentinel_payload_arrived (cs : list (list byte)) (b : jsstring) :
  first_sighting cs = Some b ->
  includes (after_first b) SENTINEL = true ->
  payload_arrived cs.
Proof.
  intros Hb Ha. exists b. split; [exact Hb|].
  destruct (first_sighting_some cs b Hb) as (Hinc & t & ->).
  symmetry. now apply between_first_two_app.
Qed.

Lemma one_chunk_payload_arrived (c : list byte) :
  includes (received [c]) SENTINEL = true -> payload_arrived [c].
Proof.
  unfold payload_arrived, first_sighting, received, decoded.
  cbn [decode_chunks].
  destruct (decode new_TextDecoder c) as [d piece].
  cbn [concat buffers until_sentinel app]. rewrite app_nil_r.
  intros ->. now exists piece.
Qed.



End PayloadFacts.

(* ===================================================================== *)
(** ** Properties of the streamed answer handler *)
(* ===================================================================== *)

Module Properties.
Import JS TextDecoder ChatBox Observe Samples.
Import JSFacts LoopFacts CallFacts ObserveFacts PayloadFacts.

(** The sample call passes the guards, and the sample environment
    streams, by evaluation. *)
Ltac sample_call :=
  split; [now exists 115, (lit "-1") | vm_compute; discriminate].

Ltac sample_stream := exists 200, []; split; reflexivity.

(** C1, where chunking changes the result: the input of the sentinel
    split property delivered whole gives the citation; the same bytes cut
    at offset 50, inside the citation payload, give an empty citation
    list, because the read loop is left at the first chunk and the second
    one is never read. *)
Theorem chunk_after_sentinel_is_dropped :
  let whole := [answer_42] in
  let cut := [firstn 50 answer_42; skipn 50 answer_42] in
  let final cs :=
    final_snapshot (log_of (handleAsk session (serving cs EndOfStream) asking)) in
  concat cut = concat whole
  /\ option_map text (final whole) = Some (lit "The answer is 42.")
  /\ option_map text (final cut) = Some (lit "The answer is 42.")
  /\ option_map citations (final whole) = Some (Some citation_doc_p3)
  /\ option_map citations (final cut) = Some (Some (JArray []))
  /\ parse_calls (log_of (handleAsk session (serving cut EndOfStream) asking))
     = [litq "[{'source':'do"].
Proof.
  cbv zeta. repeat split; vm_compute; reflexivity.
Qed.

(** Where chunking does not matter: a cut that comes before the sentinel
    is complete (the text decoded from the first part does not show it)
    gives the final snapshot of the delivery in one chunk. *)
Lemma cut_before_sentinel_end_is_harmless (p : props) (env1 env2 : environment)
    (st : state) (input : list byte) (k : nat) (fin : stream_end) :
  passes_guards p st ->
  streams env1 [input] fin ->
  streams env2 [firstn k input; skipn k input] fin ->
  clock_bot env1 = clock_bot env2 ->
  includes (received [firstn k input]) SENTINEL = false ->
  final_snapshot (log_of (handleAsk p env2 st))
  = final_snapshot (log_of (handleAsk p env1 st)).
Proof.
  intros [(c & id & Hsid) Hq] Hs1 Hs2 Hclock Hquiet.
  rewrite (handleAsk_streams p env1 st c id _ _ Hsid Hq Hs1).
  rewrite (handleAsk_streams p env2 st c id _ _ Hsid Hq Hs2).
  cbv zeta. unfold received, decoded in *. cbn [decode_chunks] in *.
  pose proof (decode_app new_TextDecoder (firstn k input) (skipn k input))
    as Hwhole.
  rewrite firstn_skipn in Hwhole. rewrite Hwhole.
  destruct (decode new_TextDecoder (firstn k input)) as [d1 o1].
  destruct (decode d1 (skipn k input)) as [d2 o2].
  cbn [concat buffers until_sentinel app] in *.
  rewrite app_nil_r in Hquiet. rewrite Hquiet.
  assert (Hbot : bot_message env2 = bot_message env1)
    by (unfold bot_message; now rewrite Hclock).
  destruct (includes (o1 ++ o2) SENTINEL).
  - unfold log_of. destruct fin; cbn [snd];
      rewrite !finalized_final_snapshot;
      unfold final_message; cbn [exit_message exit_payload];
      now rewrite Hbot.
  - unfold log_of. destruct fin; cbn [snd].
    + rewrite !finalized_final_snapshot.
      unfold final_message. cbn [exit_message exit_payload last].
      now rewrite Hbot.
    + now rewrite !failed_final_snapshot.
Qed.

(** C2, sentinel split correctness: when the body of the response is the
    single chunk ["The answer is 42.---__CITATIONS__---[{...doc.pdf, 3,
    ...}]"], the call finalizes, the final snapshot has the text
    ["The answer is 42."] and the one citation parsed from the payload,
    and it is the last message of the transcript. *)
Theorem sentinel_split_correctness (p : props) (env : environment) (st : state) :
  passes_guards p st ->
  streams env [answer_42] EndOfStream ->
  let run := handleAsk p env st in
  result_of run = Ok tt
  /\ exists m,
       final_snapshot (log_of run) = Some m
       /\ text m = lit "The answer is 42."
       /\ citations m = Some citation_doc_p3
       /\ last_message (messages (state_of run)) = Some m.
Proof.
  intros [(c & id & Hsid) Hq] Hs.
  rewrite (handleAsk_streams p env st c id _ _ Hsid Hq Hs).
  set (u := until_sentinel (buffers [] (decoded [answer_42]))).
  vm_compute in u. subst u. cbv beta iota zeta.
  unfold final_message, exit_message, exit_payload, parsed_message.
  match goal with
  | |- context [truthy ?pl] =>
      replace (truthy pl) with true by (vm_compute; reflexivity);
      replace (JSON.parse pl) with (Some citation_doc_p3)
        by (vm_compute; reflexivity)
  end.
  split; [reflexivity|].
  eexists. unfold log_of, state_of. cbn [fst snd messages].
  rewrite finalized_final_snapshot, last_message_snoc.
  repeat split.
Qed.

(** [sentinel_split_correctness] on a sample call. *)
Lemma sentinel_split_correctness_witness :
  let run := handleAsk session (serving [answer_42] EndOfStream) asking in
  result_of run = Ok tt
  /\ exists m,
       final_snapshot (log_of run) = Some m
       /\ text m = lit "The answer is 42."
       /\ citations m = Some citation_doc_p3
       /\ last_message (messages (state_of run)) = Some m.
Proof.
  apply sentinel_split_correctness.
  - sample_call.
  - sample_stream.
Defined.

(** C3 does not hold as the specification states it: the second chunk
    below holds only the first byte of a two-byte character and decodes
    to nothing, so the second snapshot of the read loop is no longer than
    the first. *)
Lemma chunk_without_text_adds_nothing :
  let cs := cafe_in_three in
  let log := log_of (handleAsk session (serving cs EndOfStream) asking) in
  includes (received cs) SENTINEL = false
  /\ ~ grows_strictly (map text (loop_snapshots log)).
Proof.
  cbv zeta. split; [vm_compute; reflexivity|].
  intros H.
  specialize (H 0%nat (lit "caf") (lit "caf")).
  assert (Hlt : (length (lit "caf") < length (lit "caf"))%nat)
    by (apply H; vm_compute; reflexivity).
  cbn in Hlt. lia.
Qed.

(** C3 as amended, monotonic growth: when the sentinel never appears,
    each snapshot's text is the text of the snapshot before it followed by
    what the next chunk decodes to, which may be nothing; the snapshot
    emitted after the read loop repeats the last text. So every text
    extends the one before it and no text is shorter than the one
    before it. *)
Theorem snapshots_extend_by_decoded_chunk (p : props) (env : environment)
    (st : state) (cs : list (list byte)) (fin : stream_end) :
  passes_guards p st ->
  streams env cs fin ->
  includes (received cs) SENTINEL = false ->
  let texts := map text (snapshots (log_of (handleAsk p env st))) in
  forall i a b,
    nth_error texts i = Some a ->
    nth_error texts (S i) = Some b ->
    exists d,
      b = a ++ d
      /\ (length a <= length b)%nat
      /\ (nth_error (decoded cs) (S i) = Some d
          \/ (S i = length cs /\ d = [])).
Proof.
  intros [(c & id & Hsid) Hq] Hs Hquiet. cbv zeta.
  rewrite (handleAsk_streams p env st c id _ _ Hsid Hq Hs). cbv zeta.
  unfold received in Hquiet. rewrite (until_quiet [] (decoded cs) Hquiet).
  assert (Hstep : forall i a b,
             nth_error (buffers [] (decoded cs)) i = Some a ->
             nth_error (buffers [] (decoded cs)) (S i) = Some b ->
             exists d,
               b = a ++ d
               /\ (length a <= length b)%nat
               /\ (nth_error (decoded cs) (S i) = Some d
                   \/ (S i = length cs /\ d = []))).
  { intros i a b Ha Hb.
    destruct (buffers_step _ _ i a b Ha Hb) as (d & Hd & ->).
    exists d. rewrite length_app. repeat split; [lia | now left]. }
  destruct fin as [|e]; unfold log_of; cbn [snd].
  - rewrite finalized_snapshots, map_app, texts_of_snapshots.
    unfold final_message, parsed_message. cbn [exit_payload truthy exit_message].
    cbn [map text with_text].
    set (quiet := buffers [] (decoded cs)) in *.
    intros i a b Ha Hb.
    destruct (Nat.lt_ge_cases (S i) (length quiet)) as [Hlt | Hge].
    + rewrite nth_error_app1 in Ha, Hb by lia. now apply Hstep.
    + assert (Hi : S i = length quiet).
      { assert (Hb' : nth_error (quiet ++ [last quiet []]) (S i) <> None)
          by (rewrite Hb; discriminate).
        apply nth_error_Some in Hb'. rewrite length_app in Hb'.
        cbn [length] in Hb'. lia. }
      rewrite nth_error_app1 in Ha by lia.
      rewrite nth_error_app2, Hi, Nat.sub_diag in Hb by lia.
      injection Hb as <-.
      assert (Hne : quiet <> []) by (intros E; rewrite E in Hi; discriminate).
      replace i with (length quiet - 1)%nat in Ha by lia.
      rewrite (nth_error_last quiet [] Hne) in Ha.
      injection Ha as <-. exists []. rewrite app_nil_r.
      repeat split; [lia|]. right. split; [|reflexivity].
      unfold quiet in Hi. now rewrite Hi, buffers_length, decoded_length.
  - rewrite failed_snapshots, texts_of_snapshots. exact Hstep.
Qed.

(** [snapshots_extend_by_decoded_chunk] on a sample call. *)
Lemma snapshots_extend_by_decoded_chunk_witness :
  let cs := cafe_in_three in
  let a := lit "caf" in
  let b := [99; 97; 102; 233] in
  exists d,
    b = a ++ d
    /\ (length a <= length b)%nat
    /\ (nth_error (decoded cs) 2 = Some d \/ (2%nat = length cs /\ d = [])).
Proof.
  apply (snapshots_extend_by_decoded_chunk session
           (serving cafe_in_three EndOfStream) asking _ EndOfStream).
  - sample_call.
  - sample_stream.
  - vm_compute. reflexivity.
  - vm_compute. reflexivity.
  - vm_compute. reflexivity.
Defined.







(** C6, no sentinel at all: when the stream ends and the decoded input
    never shows the sentinel, the final snapshot has the whole accumulated
    decoded input as its text and an empty citation list. *)
Theorem no_sentinel_finalization (p : props) (env : environment) (st : state)
    (cs : list (list byte)) :
  passes_guards p st ->
  streams env cs EndOfStream ->
  includes (received cs) SENTINEL = false ->
  let run := handleAsk p env st in
  result_of run = Ok tt
  /\ exists m,
       final_snapshot (log_of run) = Some m
       /\ text m = received cs
       /\ citations m = Some (JArray [])
       /\ last_message (messages (state_of run)) = Some m.
Proof.
  intros [(c & id & Hsid) Hq] Hs Hquiet.
  rewrite (handleAsk_streams p env st c id _ _ Hsid Hq Hs).
  unfold received in *.
  rewrite (until_quiet [] (decoded cs) Hquiet).
  cbv beta iota zeta.
  unfold final_message, exit_message, exit_payload, parsed_message.
  cbn [truthy].
  split; [reflexivity|].
  eexists. unfold log_of, state_of. cbn [fst snd messages].
  rewrite finalized_final_snapshot, last_message_snoc.
  repeat split. cbn [text with_text]. now rewrite buffers_last.
Qed.

(** [no_sentinel_finalization] on a sample call. *)
Lemma no_sentinel_finalization_witness :
  let cs := [bytes "Forty-"; bytes "two."] in
  let run := handleAsk session (serving cs EndOfStream) asking in
  result_of run = Ok tt
  /\ exists m,
       final_snapshot (log_of run) = Some m
       /\ text m = received cs
       /\ citations m = Some (JArray [])
       /\ last_message (messages (state_of run)) = Some m.
Proof.
  apply no_sentinel_finalization.
  - sample_call.
  - sample_stream.
  - vm_compute. reflexivity.
Defined.

(** Where a transport failure is reported: when the request is rejected,
    the response is not ok or has no body, or the stream breaks and the
    text received until then does not show the sentinel, the transcript
    shown just before the failure is kept as it is and one entry marked
    ["Error: ..."] is appended to it. The transcript still starts with
    the earlier messages and the question; its last message before the
    entry is the last snapshot emitted, if any, and the text of every
    snapshot emitted before is the beginning of that message's text. *)
Lemma failure_before_sentinel_appends_entry (p : props) (env : environment)
    (st : state) (e : jsstring) :
  passes_guards p st ->
  transport_fails env e ->
  (forall cs fin, streams env cs fin -> includes (received cs) SENTINEL = false) ->
  let run := handleAsk p env st in
  exists earlier shown rest,
    transcripts (log_of run) = earlier ++ [shown; shown ++ [error_entry env e]]
    /\ messages (state_of run) = shown ++ [error_entry env e]
    /\ shown = messages st ++ user_message env st :: rest
    /\ (snapshots (log_of run) <> [] ->
        last_message shown = last_message (snapshots (log_of run)))
    /\ (forall m, In m (snapshots (log_of run)) ->
        exists kept d, last_message shown = Some kept /\ text kept = text m ++ d)
    /\ error_entries (log_of run) = [error_entry env e]
    /\ sender (error_entry env e) = lit "AI"
    /\ text (error_entry env e) = lit "Error: " ++ e.
Proof.
  intros [(c & id & Hsid) Hq] Hfail Hunseen.
  assert (Hrefused :
    forall e',
      handleAsk p env st =
      (let base := messages st ++ [user_message env st] in
       let failed := base ++ [error_entry env e'] in
       (Ok tt, mk_state [] failed false,
        [SetMessages AppendUser base; SetLoading true;
         Fetch (lit "/ask") (question st) (c :: id) (sessionToken p);
         ConsoleError (lit "Error asking question:");
         SetMessages AppendError failed;
         SetLoading false; SetQuestion []])) ->
      let run := handleAsk p env st in
      exists earlier shown rest,
        transcripts (log_of run) = earlier ++ [shown; shown ++ [error_entry env e']]
        /\ messages (state_of run) = shown ++ [error_entry env e']
        /\ shown = messages st ++ user_message env st :: rest
        /\ (snapshots (log_of run) <> [] ->
            last_message shown = last_message (snapshots (log_of run)))
        /\ (forall m, In m (snapshots (log_of run)) ->
            exists kept d,
              last_message shown = Some kept /\ text kept = text m ++ d)
        /\ error_entries (log_of run) = [error_entry env e']
        /\ sender (error_entry env e') = lit "AI"
        /\ text (error_entry env e') = lit "Error: " ++ e').
  { intros e' Hrun. cbv zeta. rewrite Hrun.
    exists [], (messages st ++ [user_message env st]), [].
    unfold log_of, state_of, error_entries.
    cbn [fst snd messages flat_map error_entry_of].
    rewrite !last_message_snoc.
    split; [reflexivity|]. split; [reflexivity|]. split; [reflexivity|].
    split; [intros H; now contradiction H|].
    split; [intros m []|]. now repeat split. }
  destruct Hfail as [e Hnet | status txt body Hnet Hok | status txt Hnet Hok
                    | cs e Hs].
  - apply Hrefused, (handleAsk_refused p env st c id e Hsid Hq). now left.
  - apply Hrefused, (handleAsk_refused p env st c id _ Hsid Hq).
    right; left. now exists status, txt, body.
  - apply Hrefused, (handleAsk_refused p env st c id _ Hsid Hq).
    right; right. now exists status, txt.
  - pose proof (Hunseen cs _ Hs) as Hquiet.
    cbv zeta. rewrite (handleAsk_streams p env st c id _ _ Hsid Hq Hs).
    unfold received in Hquiet. rewrite (until_quiet [] (decoded cs) Hquiet).
    cbv beta iota zeta. unfold log_of, state_of. cbn [fst snd messages].
    set (base := messages st ++ [user_message env st]).
    set (quiet := buffers [] (decoded cs)).
    set (bot := bot_message env).
    rewrite failed_transcripts, failed_snapshots, failed_error_entries.
    fold bot.
    set (f := fun b => base ++ [with_text bot b]).
    exists (removelast (base :: f [] :: map f quiet)),
           (f (last quiet [])), [with_text bot (last quiet [])].
    split; [|split; [reflexivity|split; [|split; [|split]]]].
    + change [f (last quiet []); f (last quiet []) ++ [error_entry env e]]
        with ([f (last quiet [])] ++ [f (last quiet []) ++ [error_entry env e]]).
      rewrite app_assoc. f_equal.
      rewrite <- (last_map f quiet []).
      rewrite <- (last_cons_default (f []) base (map f quiet)).
      rewrite <- (last_cons_default base base (f [] :: map f quiet)).
      apply app_removelast_last. discriminate.
    + unfold f, base. now rewrite <- app_assoc.
    + intros Hne. unfold f. rewrite last_message_snoc.
      rewrite (last_message_last _ (with_text bot [])) by exact Hne.
      now rewrite last_map.
    + intros m Hm. apply in_map_iff in Hm as (b & <- & Hb).
      unfold f. rewrite last_message_snoc.
      destruct (buffers_prefix [] (decoded cs) b Hb) as [t Ht].
      exists (with_text bot (last quiet [])), t. split; [reflexivity|].
      cbn [text with_text]. unfold quiet. now rewrite buffers_last.
    + now repeat split.
Qed.

(** C7, where a transport failure is not reported: the response is ok
    and its body delivers the first 50 bytes of the sample answer, which
    show the sentinel and the beginning of the payload; then the
    connection is reset. The read loop was left at that chunk and the
    stream is never read again: the call ends as if nothing had failed,
    no error entry is appended, and the answer is shown with an empty
    citation list. When the same connection is reset after the first 17
    bytes, before the sentinel, the failure is caught and the entry
    appended under the text shown. *)
Theorem reset_after_sentinel_goes_unreported :
  let e := lit "network error" in
  let late := serving [firstn 50 answer_42] (StreamError e) in
  let early := serving [firstn 17 answer_42] (StreamError e) in
  let run env := handleAsk session env asking in
  let shown env := map text (skipn 1 (messages (state_of (run env)))) in
  transport_fails late e
  /\ transport_fails early e
  /\ result_of (run late) = Ok tt
  /\ error_entries (log_of (run late)) = []
  /\ shown late = [lit "The answer is 42."]
  /\ option_map citations (final_snapshot (log_of (run late)))
     = Some (Some (JArray []))
  /\ error_entries (log_of (run early)) = [error_entry early e]
  /\ shown early = [lit "The answer is 42."; lit "Error: network error"].
Proof.
  cbv zeta.
  split; [apply (stream_breaks _ [firstn 50 answer_42]); sample_stream|].
  split; [apply (stream_breaks _ [firstn 17 answer_42]); sample_stream|].
  repeat split; vm_compute; reflexivity.
Qed.

(** C8, citations are written once: in every call the assistant message
    is created with an empty citation list, every snapshot emitted by the
    read loop and every error entry has an empty list, the list is
    assigned at most once, and only after the read loop: what follows the
    assignment is the final snapshot alone, which carries the assigned
    value, and no further assignment. *)
Theorem citations_written_once (p : props) (env : environment) (st : state) :
  written_once (log_of (handleAsk p env st)).
Proof.
  assert (Hsilent : forall log,
             created log = None -> loop_snapshots log = [] ->
             error_entries log = [] -> citation_writes log = [] ->
             final_snapshot log = None -> written_once log).
  { intros log Hc Hl He Hw Hf. unfold written_once.
    rewrite Hc, Hl, He, Hw, Hf.
    repeat split; try easy; try (cbn; lia); repeat constructor. }
  assert (Hrefused : forall c id e,
             handleAsk p env st =
             (let base := messages st ++ [user_message env st] in
              let failed := base ++ [error_entry env e] in
              (Ok tt, mk_state [] failed false,
               [SetMessages AppendUser base; SetLoading true;
                Fetch (lit "/ask") (question st) (c :: id) (sessionToken p);
                ConsoleError (lit "Error asking question:");
                SetMessages AppendError failed;
                SetLoading false; SetQuestion []])) ->
             written_once (log_of (handleAsk p env st))).
  { intros c id e ->. unfold written_once, log_of. cbv zeta. cbn [snd].
    unfold created, loop_snapshots, error_entries, citation_writes, final_snapshot.
    cbn [flat_map created_of loop_snapshot_of error_entry_of citation_write_of
           final_snapshot_of].
    rewrite last_message_snoc. cbn.
    repeat split; try easy; try (cbn; lia); repeat constructor. }
  destruct (sessionId p) as [[|c id]|] eqn:Hsid.
  - apply Hsilent; unfold handleAsk; now rewrite Hsid.
  - destruct (trim (question st)) as [|u t] eqn:Hq.
    + apply Hsilent; unfold handleAsk; now rewrite Hsid, Hq.
    + assert (Hq' : trim (question st) <> []) by (rewrite Hq; discriminate).
      destruct (network env) as [e | status txt body] eqn:Hnet.
      { apply (Hrefused c id e), (handleAsk_refused p env st c id e Hsid Hq').
        now left. }
      destruct (response_ok status) eqn:Hok.
      2:{ eapply Hrefused, (handleAsk_refused p env st c id _ Hsid Hq').
          right; left. now exists status, txt, body. }
      destruct body as [[cs fin]|].
      2:{ eapply Hrefused, (handleAsk_refused p env st c id _ Hsid Hq').
          right; right. now exists status, txt. }
      assert (Hs : streams env cs fin) by (now exists status, txt).
      rewrite (handleAsk_streams p env st c id _ _ Hsid Hq' Hs). cbv zeta.
      destruct (until_sentinel (buffers [] (decoded cs))) as [quiet hit].
      assert (Hloop : Forall uncited (map (with_text (bot_message env)) quiet)).
      { apply Forall_forall. intros m Hm. apply in_map_iff in Hm as (b & <- & _).
        reflexivity. }
      assert (Hfinal :
        written_once
          (finalized_log p env (question st) (c :: id)
             (messages st ++ [user_message env st]) quiet (exit_payload hit)
             ((messages st ++ [user_message env st])
              ++ [final_message env quiet hit]))).
      { unfold written_once.
        rewrite finalized_created, finalized_loop_snapshots,
          finalized_error_entries, finalized_citation_writes,
          finalized_final_snapshot, finalized_after_write, parse_log_writes.
        assert (Hexit : uncited (exit_message (bot_message env) quiet hit))
          by (destruct hit; reflexivity).
        split; [now intros m [= <-]|].
        split; [exact Hloop|].
        split; [constructor|].
        unfold final_message, parsed_message.
        destruct (truthy (exit_payload hit));
          [destruct (JSON.parse (exit_payload hit)) as [v|]|].
        - split; [cbn; lia|]. split; [discriminate|].
          intros v' [= <-]. split; [reflexivity|]. split; [reflexivity|].
          eexists. split; [reflexivity|]. split; [|reflexivity].
          unfold snapshots, snapshot_of, closing_log.
          cbn [flat_map loop_snapshot_of final_snapshot_of].
          now rewrite last_message_snoc.
        - split; [cbn; lia|]. split; [now intros _ m [= <-] | discriminate].
        - split; [cbn; lia|]. split; [now intros _ m [= <-] | discriminate]. }
      destruct hit as [b|]; [destruct fin; exact Hfinal|].
      destruct fin as [|e]; [exact Hfinal|].
      * unfold log_of. cbn [snd]. unfold written_once.
        rewrite failed_created, failed_loop_snapshots, failed_error_entries,
          failed_citation_writes, failed_final_snapshot.
        split; [now intros m [= <-]|].
        split; [exact Hloop|].
        split; [repeat constructor|].
        split; [cbn; lia|]. split; [discriminate | discriminate].
  - apply Hsilent; unfold handleAsk; now rewrite Hsid.
Qed.

(** C9, the guards: when the session identifier is missing, or the
    question is empty or white space only, the call returns with the
    component state exactly as it was, and its log holds no network
    request, no update of the transcript and no change of the loading
    flag. *)
Theorem guard_leaves_state_unchanged (p : props) (env : environment) (st : state) :
  session_absent p \/ blank (question st) ->
  let run := handleAsk p env st in
  result_of run = Ok tt
  /\ state_of run = st
  /\ requests (log_of run) = []
  /\ transcripts (log_of run) = []
  /\ loading_changes (log_of run) = [].
Proof.
  intros H. unfold handleAsk.
  destruct (sessionId p) as [[|c id]|] eqn:Hsid.
  - now repeat split.
  - destruct H as [[H | H] | H]; try (rewrite Hsid in H; discriminate).
    rewrite (trim_blank _ H). now repeat split.
  - now repeat split.
Qed.

(** [guard_leaves_state_unchanged] on a sample call. *)
Lemma guard_leaves_state_unchanged_witness :
  let st := mk_state (lit "   ") [] false in
  let run := handleAsk session (serving [answer_42] EndOfStream) st in
  result_of run = Ok tt
  /\ state_of run = st
  /\ requests (log_of run) = []
  /\ transcripts (log_of run) = []
  /\ loading_changes (log_of run) = [].
Proof.
  apply guard_leaves_state_unchanged.
  right. reflexivity.
Defined.

(** C10, payload trimming: what [JSON.parse] is called with is the text
    captured after the sentinel ([parts[1]]) without its leading and
    trailing white space: only white space was taken off the captured
    text, at its two ends, and what is parsed neither begins nor ends
    with white space. When nothing is left, which is when the captured
    text is empty or blank, there is no call of [JSON.parse] at all and
    the final snapshot has an empty citation list; otherwise there is
    exactly one call. Without a sighting of the sentinel nothing is
    parsed. *)
Theorem payload_trimmed_before_parse (p : props) (env : environment) (st : state)
    (cs : list (list byte)) (fin : stream_end) :
  passes_guards p st ->
  streams env cs fin ->
  let log := log_of (handleAsk p env st) in
  (first_sighting cs = None -> parse_calls log = [])
  /\ (forall b,
        first_sighting cs = Some b ->
        exists payload,
          stripped_of (raw_capture b) payload
          /\ (payload <> [] -> parse_calls log = [payload])
          /\ (payload = [] ->
              parse_calls log = []
              /\ exists m, final_snapshot log = Some m
                           /\ citations m = Some (JArray []))
          /\ (blank (raw_capture b) <-> parse_calls log = [])).
Proof.
  intros [(c & id & Hsid) Hq] Hs. cbv zeta.
  rewrite (handleAsk_streams p env st c id _ _ Hsid Hq Hs). cbv zeta.
  unfold first_sighting.
  destruct (until_sentinel (buffers [] (decoded cs))) as [quiet hit] eqn:E.
  cbn [snd]. unfold log_of. split.
  - intros ->. destruct fin as [|e]; cbn [snd].
    + now rewrite finalized_parse_calls.
    + now rewrite failed_parse_calls.
  - intros b ->. apply until_hit in E as (Hb & _ & _).
    exists (trim (raw_capture b)).
    pose proof (trim_stripped (raw_capture b)) as Hstripped.
    pose proof (stripped_empty _ _ Hstripped) as Hblank.
    split; [exact Hstripped|].
    rewrite <- Hblank. clear Hblank Hstripped.
    rewrite (raw_capture_between b Hb).
    assert (Hgoal :
      let log :=
        finalized_log p env (question st) (c :: id)
          (messages st ++ [user_message env st]) quiet (exit_payload (Some b))
          ((messages st ++ [user_message env st])
           ++ [final_message env quiet (Some b)]) in
      (trim (between_first_two b) <> [] ->
       parse_calls log = [trim (between_first_two b)])
      /\ (trim (between_first_two b) = [] ->
          parse_calls log = []
          /\ exists m, final_snapshot log = Some m
                       /\ citations m = Some (JArray []))
      /\ (trim (between_first_two b) = [] <-> parse_calls log = [])).
    { cbv zeta. rewrite finalized_parse_calls, finalized_final_snapshot.
      unfold final_message. cbn [exit_payload].
      destruct (trim (between_first_two b)) as [|u t] eqn:Et.
      - split; [easy|]. split; [|easy]. intros _. split; [reflexivity|].
        eexists. split; [reflexivity|].
        reflexivity.
      - cbn [truthy]. split; [reflexivity|]. split; [discriminate|].
        split; discriminate. }
    destruct fin as [|e]; cbn [snd]; exact Hgoal.
Qed.

(** [payload_trimmed_before_parse] on a sample call: the captured text
    has two spaces before the payload and a space and a line feed after
    it. *)
Lemma payload_trimmed_before_parse_witness :
  let cs := [padded_payload] in
  let log := log_of (handleAsk session (serving cs EndOfStream) asking) in
  (first_sighting cs = None -> parse_calls log = [])
  /\ (forall b,
        first_sighting cs = Some b ->
        exists payload,
          stripped_of (raw_capture b) payload
          /\ (payload <> [] -> parse_calls log = [payload])
          /\ (payload = [] ->
              parse_calls log = []
              /\ exists m, final_snapshot log = Some m
                           /\ citations m = Some (JArray []))
          /\ (blank (raw_capture b) <-> parse_calls log = []))
  /\ option_map raw_capture (first_sighting cs) = Some (lit "  [1] " ++ [10])
  /\ parse_calls log = [lit "[1]"].
Proof.
  cbv zeta.
  pose proof
    (payload_trimmed_before_parse session
       (serving [padded_payload] EndOfStream) asking [padded_payload]
       EndOfStream) as H.
  cbv zeta in H.
  split; [apply H; [sample_call | sample_stream]|].
  split; [apply H; [sample_call | sample_stream]|].
  split; vm_compute; reflexivity.
Defined.

End Properties.

(* ===================================================================== *)
(** ** Further properties of handleAsk *)
(* ===================================================================== *)

Module AskProperties.
Import JS TextDecoder ChatBox Observe Samples.
Import JSFacts LoopFacts CallFacts ObserveFacts.

Ltac sample_call :=
  split; [now exists 115, (lit "-1") | vm_compute; discriminate].

Ltac sample_stream := exists 200, []; split; reflexivity.

(** The log of a call whose request fails before the answer is read. *)
Lemma refused_or_streams (p : props) (env : environment) (st : state)
    (c : Z) (id : jsstring) :
  sessionId p = Some (c :: id) ->
  trim (question st) <> [] ->
  (exists e,
     handleAsk p env st =
     (Ok tt,
      mk_state [] ((messages st ++ [user_message env st]) ++ [error_entry env e])
        false,
      [SetMessages AppendUser (messages st ++ [user_message env st]);
       SetLoading true;
       Fetch (lit "/ask") (question st) (c :: id) (sessionToken p);
       ConsoleError (lit "Error asking question:");
       SetMessages AppendError
         ((messages st ++ [user_message env st]) ++ [error_entry env e]);
       SetLoading false; SetQuestion []]))
  \/ (exists cs fin, streams env cs fin).
Proof.
  intros Hsid Hq.
  destruct (network env) as [e | status txt body] eqn:Hnet.
  { left. exists e. apply (handleAsk_refused p env st c id e Hsid Hq). now left. }
  destruct (response_ok status) eqn:Hok.
  2:{ left. eexists. apply (handleAsk_refused p env st c id _ Hsid Hq).
      right; left. now exists status, txt, body. }
  destruct body as [[cs fin]|].
  2:{ left. eexists. apply (handleAsk_refused p env st c id _ Hsid Hq).
      right; right. now exists status, txt. }
  right. exists cs, fin. now exists status, txt.
Qed.

(** X1, the [finally] block: a call that passes the guards never throws,
    and whatever the network does it ends with the loading flag off and
    the question field empty. *)
Theorem guarded_call_always_settles (p : props) (env : environment) (st : state) :
  passes_guards p st ->
  let run := handleAsk p env st in
  result_of run = Ok tt
  /\ loading (state_of run) = false
  /\ question (state_of run) = [].
Proof.
  intros [(c & id & Hsid) Hq]. cbv zeta.
  rewrite (handleAsk_guarded p env st c id Hsid Hq). cbv zeta.
  destruct (ask_stream p env (question st) (c :: id) _) as [[[u|e] st2] log];
    now repeat split.
Qed.

(** [guarded_call_always_settles] on a sample call. *)
Lemma guarded_call_always_settles_witness :
  let run := handleAsk session (serving [answer_42] (StreamError (lit "reset")))
               asking in
  result_of run = Ok tt
  /\ loading (state_of run) = false
  /\ question (state_of run) = [].
Proof.
  apply guarded_call_always_settles. sample_call.
Defined.

Lemma requests_of_opening (p : props) (env : environment) (q sid : jsstring)
    (base : list message) (quiet : list jsstring) :
  requests (opening_log p env q sid base quiet)
  = [Fetch (lit "/ask") q sid (sessionToken p)].
Proof.
  unfold requests, opening_log, stream_log.
  cbn [flat_map request_of]. rewrite flat_map_loop.
  cbn [request_of app]. now rewrite flat_map_none.
Qed.

Lemma requests_of_parse_log (payload : jsstring) :
  requests (parse_log payload) = [].
Proof.
  unfold parse_log. destruct (truthy payload); [|reflexivity].
  destruct (JSON.parse payload); reflexivity.
Qed.

(** X2, one request for one question: a call that passes the guards
    issues exactly one request, whether it succeeds or fails at any
    point, and the request carries the question as it was typed (not
    trimmed), the session identifier and the token. *)
Theorem guarded_call_asks_once (p : props) (env : environment) (st : state)
    (sid : jsstring) :
  passes_guards p st ->
  sessionId p = Some sid ->
  requests (log_of (handleAsk p env st))
  = [Fetch (lit "/ask") (question st) sid (sessionToken p)].
Proof.
  intros [(c & id & Hsid) Hq] Hp. rewrite Hsid in Hp. injection Hp as <-.
  destruct (refused_or_streams p env st c id Hsid Hq)
    as [(e & ->) | (cs & fin & Hs)]; [reflexivity|].
  rewrite (handleAsk_streams p env st c id _ _ Hsid Hq Hs). cbv zeta.
  destruct (until_sentinel (buffers [] (decoded cs))) as [quiet hit].
  assert (Hfinal : forall payload final,
             requests (finalized_log p env (question st) (c :: id)
                         (messages st ++ [user_message env st]) quiet payload final)
             = [Fetch (lit "/ask") (question st) (c :: id) (sessionToken p)]).
  { intros payload final. unfold finalized_log, requests.
    rewrite !flat_map_app.
    fold (requests (opening_log p env (question st) (c :: id)
                      (messages st ++ [user_message env st]) quiet)).
    fold (requests (parse_log payload)).
    now rewrite requests_of_opening, requests_of_parse_log. }
  destruct hit as [b|]; [destruct fin; apply Hfinal|].
  destruct fin as [|e]; [apply Hfinal|].
  unfold log_of. cbn [snd]. unfold failed_log, requests.
  rewrite !flat_map_app.
  fold (requests (opening_log p env (question st) (c :: id)
                    (messages st ++ [user_message env st]) quiet)).
  now rewrite requests_of_opening.
Qed.

(** [guarded_call_asks_once] on a sample call. *)
Lemma guarded_call_asks_once_witness :
  requests (log_of (handleAsk session (serving [answer_42] EndOfStream)
                      (mk_state (lit "  What? ") [] false)))
  = [Fetch (lit "/ask") (lit "  What? ") (lit "s-1") (Some (lit "token"))].
Proof.
  apply (guarded_call_asks_once session).
  - split; [now exists 115, (lit "-1") | vm_compute; discriminate].
  - reflexivity.
Defined.

(** X3, a call followed on its own only adds to the transcript: when no
    other handler of the component changes the transcript while the call
    runs (no clearing, no loading of a session, no second question
    between two of its steps), every transcript a call that passes the
    guards installs, and the one it ends with, is the transcript it
    started from, followed by the question, followed by at most two
    messages (the answer, an error entry). *)
Theorem transcript_only_grows (p : props) (env : environment) (st : state) :
  passes_guards p st ->
  let run := handleAsk p env st in
  In (messages (state_of run)) (transcripts (log_of run))
  /\ forall ms, In ms (transcripts (log_of run)) ->
       exists tail,
         ms = messages st ++ user_message env st :: tail
         /\ (length tail <= 2)%nat.
Proof.
  intros [(c & id & Hsid) Hq]. cbv zeta.
  set (base := messages st ++ [user_message env st]).
  assert (Hshape : forall tail,
             (length tail <= 2)%nat ->
             exists tail',
               base ++ tail = messages st ++ user_message env st :: tail'
               /\ (length tail' <= 2)%nat).
  { intros tail Hlen. exists tail. unfold base. now rewrite <- app_assoc. }
  destruct (refused_or_streams p env st c id Hsid Hq)
    as [(e & ->) | (cs & fin & Hs)].
  { unfold log_of, state_of, transcripts. cbn [fst snd flat_map transcript_of app messages].
    fold base. split; [right; now left|].
    intros ms [<- | [<- | []]].
    - rewrite <- (app_nil_r base). apply Hshape. cbn. lia.
    - apply Hshape. cbn. lia. }
  rewrite (handleAsk_streams p env st c id _ _ Hsid Hq Hs). cbv zeta. fold base.
  destruct (until_sentinel (buffers [] (decoded cs))) as [quiet hit].
  assert (Hopen : forall ms,
             In ms (base :: (base ++ [bot_message env])
                    :: map (fun b => base ++ [with_text (bot_message env) b]) quiet) ->
             exists tail,
               ms = messages st ++ user_message env st :: tail
               /\ (length tail <= 2)%nat).
  { intros ms [<- | [<- | Hin]].
    - rewrite <- (app_nil_r base). apply Hshape. cbn. lia.
    - apply Hshape. cbn. lia.
    - apply in_map_iff in Hin as (b & <- & _). apply Hshape. cbn. lia. }
  assert (Hfinal : forall payload m,
             let run :=
               (Ok tt, mk_state [] (base ++ [m]) false,
                finalized_log p env (question st) (c :: id) base quiet payload
                  (base ++ [m])) in
             In (messages (state_of run)) (transcripts (log_of run))
             /\ forall ms, In ms (transcripts (log_of run)) ->
                  exists tail,
                    ms = messages st ++ user_message env st :: tail
                    /\ (length tail <= 2)%nat).
  { intros payload m. cbv zeta. unfold log_of, state_of. cbn [fst snd messages].
    rewrite finalized_transcripts. split.
    - apply in_or_app. right. now left.
    - intros ms Hin. apply in_app_or in Hin as [Hin | [<- | []]].
      + now apply Hopen.
      + apply Hshape. cbn. lia. }
  destruct hit as [b|]; [destruct fin; apply Hfinal|].
  destruct fin as [|e]; [apply Hfinal|].
  unfold log_of, state_of. cbn [fst snd messages].
  rewrite failed_transcripts. split.
  - apply in_or_app. right. now left.
  - intros ms Hin. apply in_app_or in Hin as [Hin | [<- | []]].
    + now apply Hopen.
    + rewrite <- app_assoc. apply Hshape. cbn. lia.
Qed.

(** [transcript_only_grows] on a sample call. *)
Lemma transcript_only_grows_witness :
  let env := serving [bytes "The ans"] (StreamError (lit "reset")) in
  let run := handleAsk session env asking in
  In (messages (state_of run)) (transcripts (log_of run))
  /\ forall ms, In ms (transcripts (log_of run)) ->
       exists tail,
         ms = messages asking ++ user_message env asking :: tail
         /\ (length tail <= 2)%nat.
Proof.
  apply transcript_only_grows. sample_call.
Defined.

(** X4, the sentinel is never shown: no snapshot of the assistant
    message, during the read loop or after it, has the sentinel in its
    text, however the chunks are cut and however the stream ends. *)
Theorem sentinel_is_never_shown (p : props) (env : environment) (st : state) :
  passes_guards p st ->
  forall m, In m (snapshots (log_of (handleAsk p env st))) ->
            includes (text m) SENTINEL = false.
Proof.
  intros [(c & id & Hsid) Hq] m.
  destruct (refused_or_streams p env st c id Hsid Hq)
    as [(e & ->) | (cs & fin & Hs)]; [intros []|].
  rewrite (handleAsk_streams p env st c id _ _ Hsid Hq Hs). cbv zeta.
  destruct (until_sentinel (buffers [] (decoded cs))) as [quiet hit] eqn:E.
  assert (Hquiet : Forall (fun x => includes x SENTINEL = false) quiet).
  { destruct hit as [b|].
    - now apply until_hit in E as (_ & _ & HF).
    - now apply until_none in E as [-> HF]. }
  assert (Hloop : In m (map (with_text (bot_message env)) quiet) ->
                  includes (text m) SENTINEL = false).
  { intros Hin. apply in_map_iff in Hin as (b & <- & Hb).
    rewrite Forall_forall in Hquiet. now apply Hquiet. }
  assert (Hexit : includes (text (final_message env quiet hit)) SENTINEL = false).
  { unfold final_message. rewrite parsed_message_text.
    destruct hit as [b|]; cbn [exit_message text with_text].
    - apply before_first_quiet.
    - destruct quiet as [|x l]; [reflexivity|].
      rewrite Forall_forall in Hquiet. apply Hquiet, last_in. discriminate. }
  assert (Hfinal :
    In m (snapshots (finalized_log p env (question st) (c :: id)
                       (messages st ++ [user_message env st]) quiet
                       (exit_payload hit)
                       ((messages st ++ [user_message env st])
                        ++ [final_message env quiet hit]))) ->
    includes (text m) SENTINEL = false).
  { rewrite finalized_snapshots. intros Hin.
    apply in_app_or in Hin as [Hin | [<- | []]]; [now apply Hloop | exact Hexit]. }
  destruct hit as [b|]; [destruct fin; exact Hfinal|].
  destruct fin as [|e]; [exact Hfinal|].
  unfold log_of. cbn [snd]. rewrite failed_snapshots. exact Hloop.
Qed.

(** [sentinel_is_never_shown] on a sample call: the sentinel is cut
    between two chunks. *)
Lemma sentinel_is_never_shown_witness :
  let cs := [firstn 25 answer_42; skipn 25 answer_42] in
  let log := log_of (handleAsk session (serving cs EndOfStream) asking) in
  includes (text (with_text (bot_message (serving cs EndOfStream))
                    (lit "The answer is 42.---__CIT")))
    SENTINEL = false.
Proof.
  apply (sentinel_is_never_shown session
           (serving [firstn 25 answer_42; skipn 25 answer_42] EndOfStream) asking).
  - sample_call.
  - vm_compute. left. reflexivity.
Defined.

(** X5, a payload that parses is attached as it is: when the trimmed
    text between the first sentinel and the next one is valid JSON, its
    value, whatever its shape, becomes the citations of the final
    snapshot, by the one assignment of the call, under the text before the
    first sentinel. *)
Theorem parsed_payload_is_attached (p : props) (env : environment) (st : state)
    (cs : list (list byte)) (fin : stream_end) (b : jsstring) (v : json) :
  passes_guards p st ->
  streams env cs fin ->
  first_sighting cs = Some b ->
  JSON.parse (trim (between_first_two b)) = Some v ->
  let run := handleAsk p env st in
  result_of run = Ok tt
  /\ citation_writes (log_of run) = [v]
  /\ exists m,
       final_snapshot (log_of run) = Some m
       /\ text m = before_first (received cs)
       /\ citations m = Some v
       /\ last_message (messages (state_of run)) = Some m.
Proof.
  intros [(c & id & Hsid) Hq] Hs Hb Hparse. cbv zeta.
  rewrite (handleAsk_streams p env st c id _ _ Hsid Hq Hs). cbv zeta.
  unfold first_sighting in Hb.
  destruct (until_sentinel (buffers [] (decoded cs))) as [quiet hit] eqn:E.
  cbn [snd] in Hb. subst hit.
  apply sighting_before_first in E as [_ Hbefore].
  assert (Htruthy : truthy (trim (between_first_two b)) = true).
  { destruct (trim (between_first_two b)); [discriminate Hparse | reflexivity]. }
  unfold log_of, state_of, result_of.
  destruct fin as [|e]; cbn [fst snd messages exit_payload];
    rewrite finalized_citation_writes, finalized_final_snapshot,
      last_message_snoc, Htruthy, Hparse;
    (split; [reflexivity|]); (split; [reflexivity|]);
    eexists; (split; [reflexivity|]);
    unfold final_message, parsed_message; cbn [exit_payload exit_message];
    rewrite Htruthy, Hparse; cbn [text citations with_citations with_text];
    now repeat split.
Qed.

(** [parsed_payload_is_attached] on a sample call: the payload is a
    number, not a list. *)
Lemma parsed_payload_is_attached_witness :
  let cs := [bytes "Hi.---__CITATIONS__--- 42 "] in
  let run := handleAsk session (serving cs EndOfStream) asking in
  result_of run = Ok tt
  /\ citation_writes (log_of run) = [JNumber 42 0]
  /\ exists m,
       final_snapshot (log_of run) = Some m
       /\ text m = before_first (received cs)
       /\ citations m = Some (JNumber 42 0)
       /\ last_message (messages (state_of run)) = Some m.
Proof.
  apply (parsed_payload_is_attached session _ asking _ EndOfStream
           (lit "Hi.---__CITATIONS__--- 42 ")).
  - sample_call.
  - sample_stream.
  - vm_compute. reflexivity.
  - vm_compute. reflexivity.
Defined.

(** The text of a stream does not depend on where its chunks are cut. *)
Lemma decode_chunks_concat (cs : list (list byte)) :
  forall d, concat (decode_chunks d cs) = snd (decode d (concat cs)).
Proof.
  induction cs as [|c cs IH]; intros d; [reflexivity|].
  cbn [decode_chunks concat]. rewrite decode_app.
  destruct (decode d c) as [d1 o1]. cbn [concat]. rewrite IH.
  now destruct (decode d1 (concat cs)).
Qed.

(** X6, chunk boundaries do not matter without a sentinel: two streams
    that deliver the same bytes, cut in any two ways (also inside a
    multi-byte character), and whose text does not hold the sentinel, end
    with the same final snapshot, whose text is the decoding of the bytes
    taken as one. *)
Theorem rechunking_keeps_final_text (p : props) (env1 env2 : environment)
    (st : state) (cs1 cs2 : list (list byte)) :
  passes_guards p st ->
  streams env1 cs1 EndOfStream ->
  streams env2 cs2 EndOfStream ->
  clock_bot env1 = clock_bot env2 ->
  concat cs1 = concat cs2 ->
  includes (received cs1) SENTINEL = false ->
  final_snapshot (log_of (handleAsk p env1 st))
  = final_snapshot (log_of (handleAsk p env2 st))
  /\ exists m,
       final_snapshot (log_of (handleAsk p env1 st)) = Some m
       /\ text m = snd (decode new_TextDecoder (concat cs1)).
Proof.
  intros [(c & id & Hsid) Hq] Hs1 Hs2 Hclock Hbytes Hquiet.
  assert (Hsame : received cs2 = received cs1).
  { unfold received, decoded. now rewrite !decode_chunks_concat, Hbytes. }
  assert (Hquiet2 : includes (received cs2) SENTINEL = false)
    by now rewrite Hsame.
  rewrite (handleAsk_streams p env1 st c id _ _ Hsid Hq Hs1).
  rewrite (handleAsk_streams p env2 st c id _ _ Hsid Hq Hs2).
  cbv zeta. unfold received in Hquiet, Hquiet2, Hsame.
  rewrite (until_quiet [] (decoded cs1) Hquiet).
  rewrite (until_quiet [] (decoded cs2) Hquiet2).
  unfold log_of. cbn [snd]. rewrite !finalized_final_snapshot.
  unfold final_message, parsed_message. cbn [exit_payload exit_message truthy].
  rewrite !buffers_last. cbn [app]. rewrite Hsame.
  assert (Hbot : bot_message env2 = bot_message env1)
    by (unfold bot_message; now rewrite Hclock).
  rewrite Hbot. split; [reflexivity|].
  eexists. split; [reflexivity|]. cbn [text with_text].
  unfold decoded. apply decode_chunks_concat.
Qed.

(** [rechunking_keeps_final_text] on sample calls: one chunk, and three
    chunks that cut a character. *)
Lemma rechunking_keeps_final_text_witness :
  let whole := [concat cafe_in_three] in
  final_snapshot (log_of (handleAsk session (serving whole EndOfStream) asking))
  = final_snapshot
      (log_of (handleAsk session (serving cafe_in_three EndOfStream) asking))
  /\ exists m,
       final_snapshot (log_of (handleAsk session (serving whole EndOfStream) asking))
       = Some m
       /\ text m = snd (decode new_TextDecoder (concat whole)).
Proof.
  apply (rechunking_keeps_final_text session
           (serving [concat cafe_in_three] EndOfStream)
           (serving cafe_in_three EndOfStream) asking
           [concat cafe_in_three] cafe_in_three).
  - sample_call.
  - sample_stream.
  - sample_stream.
  - reflexivity.
  - reflexivity.
  - vm_compute. reflexivity.
Defined.

End AskProperties.

(* ===================================================================== *)
(** ** Properties of apiFetch *)
(* ===================================================================== *)

Module ConfigProperties.
Import JS ChatBox Value Effect Config.

(** The request [apiFetch] issues. *)
Lemma apiFetch_unfold {S} (en : engine) (net : fetched) (endpoint : jsstring)
    (opts : options) (token : option jsstring) (st : S) :
  apiFetch en net endpoint opts token st =
  let req := mk_request (API_BASE_URL ++ endpoint) (opt_method opts)
               (request_headers opts token) (opt_body opts) in
  let failing e :=
    (Throw e, st, [Fetched req; Logged (lit "API fetch error:") e]) in
  match net with
  | FetchFails e => failing e
  | FetchGives r =>
      if says_json r then
        match JSON.parse (body_text r) with
        | None => failing (syntax_message en (body_text r))
        | Some data =>
            if response_ok (status r) then (Ok data, st, [Fetched req])
            else
              match read_member en data (lit "error") with
              | ReadThrows e => failing e
              | ReadGives (Some v) =>
                  if truthy_value en v then failing (to_text en v)
                  else failing (server_error r)
              | ReadGives None => failing (server_error r)
              end
        end
      else
        failing (lit "Server returned non-JSON response: "
                   ++ firstn 100 (body_text r) ++ lit "...")
  end.
Proof.
  unfold apiFetch, catching, and_then, tell, raise, says_json, response_json.
  destruct net as [e|r]; [reflexivity|].
  destruct (present (content_type r)); [|reflexivity].
  destruct (includes (text_or_null (content_type r)) (lit "application/json"));
    [|reflexivity].
  cbn [negb orb andb].
  destruct (response_ok (status r)); cbn [negb];
    destruct (JSON.parse (body_text r)) as [data|]; try reflexivity.
  unfold pure, raise.
  destruct (read_member en data (lit "error")) as [e|[v|]]; try reflexivity.
  destruct (truthy_value en v); reflexivity.
Qed.

(** X7, when [apiFetch] returns: it returns a value exactly when
    [fetch] brings a response that says it is JSON, whose status is ok
    and whose body parses, and the value is the parsed body; in every
    other case it throws. *)
Theorem apiFetch_returns_parsed_body {S} (en : engine) (net : fetched)
    (endpoint : jsstring) (opts : options) (token : option jsstring)
    (st : S) (v : json) :
  outcome_of (apiFetch en net endpoint opts token st) = Ok v
  <-> exists r,
        net = FetchGives r
        /\ says_json r = true
        /\ response_ok (status r) = true
        /\ JSON.parse (body_text r) = Some v.
Proof.
  rewrite apiFetch_unfold. cbv zeta. unfold outcome_of. split.
  - destruct net as [e|r]; [discriminate|].
    destruct (says_json r) eqn:Hj; [|discriminate].
    destruct (JSON.parse (body_text r)) as [data|] eqn:Hp; [|discriminate].
    destruct (response_ok (status r)) eqn:Hok.
    + cbn. intros [= <-]. now exists r.
    + destruct (read_member en data (lit "error")) as [e|[w|]];
        try discriminate.
      destruct (truthy_value en w); discriminate.
  - intros (r & -> & -> & Hok & ->). now rewrite Hok.
Qed.

(** X8, the content type is checked first: a response without a
    [content-type] header that includes ["application/json"] makes
    [apiFetch] throw, whatever its status and its body; the message
    quotes the first 100 code units of the body at most, so it is never
    longer than 138. *)
Theorem apiFetch_rejects_other_content {S} (en : engine) (r : response)
    (endpoint : jsstring) (opts : options) (token : option jsstring) (st : S) :
  says_json r = false ->
  exists msg,
    outcome_of (apiFetch en (FetchGives r) endpoint opts token st) = Throw msg
    /\ msg = lit "Server returned non-JSON response: "
               ++ firstn 100 (body_text r) ++ lit "..."
    /\ (length msg <= 138)%nat.
Proof.
  intros Hj. rewrite apiFetch_unfold. cbv zeta. rewrite Hj.
  eexists. split; [reflexivity|]. split; [reflexivity|].
  rewrite !length_app, length_firstn.
  change (length (lit "Server returned non-JSON response: ")) with 35%nat.
  change (length (lit "...")) with 3%nat. lia.
Qed.

(** [apiFetch_rejects_other_content] on a sample response: an ok page
    of HTML. *)
Lemma apiFetch_rejects_other_content_witness :
  exists msg,
    outcome_of (apiFetch (S := unit) sample_engine
                  (html_response 200 (lit "<html>Bad gateway</html>"))
                  (lit "/x") no_options None tt) = Throw msg
    /\ msg = lit "Server returned non-JSON response: "
               ++ firstn 100 (lit "<html>Bad gateway</html>") ++ lit "..."
    /\ (length msg <= 138)%nat.
Proof.
  apply (apiFetch_rejects_other_content (S := unit) sample_engine
           (mk_response 200 (Some (lit "text/html"))
              (lit "<html>Bad gateway</html>"))).
  reflexivity.
Defined.

(** X9, the message of a refused request: for a JSON response whose
    status is not ok and whose body is an object, [apiFetch] throws the
    [error] member when it is a non-empty string, and
    ["Server error: <status>"] when there is no such member. *)
Theorem apiFetch_reports_server_error {S} (en : engine) (r : response)
    (members : list (jsstring * json)) (endpoint : jsstring) (opts : options)
    (token : option jsstring) (st : S) :
  says_json r = true ->
  response_ok (status r) = false ->
  JSON.parse (body_text r) = Some (JObject members) ->
  let result := outcome_of (apiFetch en (FetchGives r) endpoint opts token st) in
  (forall c s, member (lit "error") members = Some (JString (c :: s)) ->
               result = Throw (c :: s))
  /\ (member (lit "error") members = None ->
      result = Throw (lit "Server error: " ++ number_to_string (status r))).
Proof.
  intros Hj Hok Hp. cbv zeta. rewrite apiFetch_unfold. cbv zeta.
  rewrite Hj, Hp, Hok. cbn [read_member]. split.
  - intros c s ->. reflexivity.
  - intros ->. reflexivity.
Qed.

(** [apiFetch_reports_server_error] on a sample response. *)
Lemma apiFetch_reports_server_error_witness :
  let members := [(lit "error", JString (lit "Invalid session"))] in
  let result :=
    outcome_of (apiFetch (S := unit) sample_engine
                  (json_response 401 (litq "{'error':'Invalid session'}"))
                  (lit "/x") no_options None tt) in
  (forall c s, member (lit "error") members = Some (JString (c :: s)) ->
               result = Throw (c :: s))
  /\ (member (lit "error") members = None ->
      result = Throw (lit "Server error: " ++ number_to_string 401)).
Proof.
  apply (apiFetch_reports_server_error (S := unit) sample_engine
           (mk_response 401 (Some (lit "application/json; charset=utf-8"))
              (litq "{'error':'Invalid session'}"))).
  - reflexivity.
  - reflexivity.
  - vm_compute. reflexivity.
Defined.

(** X10, one request, one log line: [apiFetch] leaves the component
    state alone and issues exactly one request in every case; when it
    throws, the error was logged once, with the message it throws; when
    it returns nothing was logged. *)
Theorem apiFetch_logs_what_it_throws {S} (en : engine) (net : fetched)
    (endpoint : jsstring) (opts : options) (token : option jsstring) (st : S) :
  let run := apiFetch en net endpoint opts token st in
  final_of run = st
  /\ fetches (effects_of run)
     = [mk_request (API_BASE_URL ++ endpoint) (opt_method opts)
          (request_headers opts token) (opt_body opts)]
  /\ alerts (effects_of run) = []
  /\ console_errors (effects_of run)
     = match outcome_of run with
       | Ok _ => []
       | Throw e => [e]
       end.
Proof.
  cbv zeta. rewrite apiFetch_unfold. cbv zeta.
  destruct net as [e|r]; [now repeat split|].
  destruct (says_json r); [|now repeat split].
  destruct (JSON.parse (body_text r)) as [data|]; [|now repeat split].
  destruct (response_ok (status r)); [now repeat split|].
  destruct (read_member en data (lit "error")) as [e|[w|]];
    try now repeat split.
  destruct (truthy_value en w); now repeat split.
Qed.

Lemma string_eqb_refl (k : jsstring) : string_eqb k k = true.
Proof.
  induction k as [|c k IH]; [reflexivity|].
  cbn [string_eqb]. now rewrite Z.eqb_refl, IH.
Qed.

Lemma string_eqb_eq (a b : jsstring) : string_eqb a b = true -> a = b.
Proof.
  revert b. induction a as [|x a IH]; intros [|y b]; cbn [string_eqb];
    try easy.
  intros H. apply andb_true_iff in H as [Hx Hab].
  apply Z.eqb_eq in Hx. apply IH in Hab. now subst.
Qed.

(** What is set is what is read. *)
Lemma get_set_same (k v : jsstring) (o : object) :
  get_property k (set_property k v o) = Some v.
Proof.
  induction o as [|[k' v'] o IH]; cbn [set_property get_property].
  - now rewrite string_eqb_refl.
  - destruct (string_eqb k' k) eqn:E; cbn [get_property]; now rewrite E.
Qed.

(** Setting one property leaves the others. *)
Lemma get_set_other (k k' v : jsstring) (o : object) :
  string_eqb k' k = false ->
  get_property k (set_property k' v o) = get_property k o.
Proof.
  intros Hne. induction o as [|[k0 v0] o IH]; cbn [set_property get_property].
  - now rewrite Hne.
  - destruct (string_eqb k0 k') eqn:E; cbn [get_property].
    + rewrite (string_eqb_eq _ _ E), Hne. reflexivity.
    + now rewrite IH.
Qed.

(** A spread leaves the properties it does not name. *)
Lemma get_spread_missing (k : jsstring) (b a : object) :
  get_property k b = None ->
  get_property k (spread a b) = get_property k a.
Proof.
  unfold spread. revert a.
  induction b as [|[k' v'] b IH]; intros a; cbn [fold_left get_property fst snd].
  - reflexivity.
  - destruct (string_eqb k' k) eqn:E; [discriminate|].
    intros H. rewrite (IH _ H). now apply get_set_other.
Qed.

(** X11, the headers of a request: a non-empty token gives the request
    the header [Authorization: Bearer <token>], whatever the options say,
    and changes no other header; and unless the options name a
    [Content-Type], the request says ["application/json"]. *)
Theorem request_headers_of_token (opts : options) (c : Z) (t : jsstring) :
  get_property (lit "Authorization") (request_headers opts (Some (c :: t)))
  = Some (lit "Bearer " ++ c :: t)
  /\ (forall k, string_eqb (lit "Authorization") k = false ->
                get_property k (request_headers opts (Some (c :: t)))
                = get_property k (request_headers opts None))
  /\ (forall token,
        get_property (lit "Content-Type")
          (match opt_headers opts with Some h => h | None => [] end) = None ->
        get_property (lit "Content-Type") (request_headers opts token)
        = Some (lit "application/json")).
Proof.
  unfold request_headers. split; [apply get_set_same|].
  split; [intros k Hk; now apply get_set_other|].
  intros token Hct.
  assert (Hdefault :
    get_property (lit "Content-Type")
      (spread [(lit "Content-Type", lit "application/json")]
         (match opt_headers opts with Some h => h | None => [] end))
    = Some (lit "application/json"))
    by now rewrite (get_spread_missing _ _ _ Hct).
  destruct token as [[|d u]|]; try exact Hdefault.
  now rewrite get_set_other.
Qed.

(** Case analysis on what the server answered to a call of [apiFetch]. *)
Ltac answer_cases en net :=
  rewrite apiFetch_unfold; cbv zeta;
  destruct net as [?e|?r];
  [|match goal with
    | |- context [says_json ?r] =>
        destruct (says_json r) eqn:?Hjson;
        [destruct (JSON.parse (body_text r)) as [?data|] eqn:?Hparse;
         [destruct (response_ok (status r)) eqn:?Hok;
          [|match goal with
            | |- context [read_member en ?d (lit "error")] =>
                destruct (read_member en d (lit "error")) as [?e|[?w|]];
                [|destruct (truthy_value en w)|]
            end]
         |]
        |]
    end].

End ConfigProperties.

(* ===================================================================== *)
(** ** Properties of saving and clearing the chat *)
(* ===================================================================== *)

Module SaveChatProperties.
Import JS ChatBox Value Effect Config SaveChat.

(** X12, saving is read-only and always answers: [handleSaveChat] never
    throws and never changes the component state (the transcript, the
    question, the loading flag), and every call ends with exactly one
    alert, whatever the network does. *)
Theorem save_never_changes_state (en : engine) (net : fetched) (p : props)
    (st : state) :
  let run := handleSaveChat en net p st in
  outcome_of run = Ok tt
  /\ final_of run = st
  /\ (length (alerts (effects_of run)) = 1)%nat.
Proof.
  cbv zeta. unfold handleSaveChat.
  destruct (sessionId p) as [[|c id]|]; try now repeat split.
  destruct (messages st) as [|m ms]; [now repeat split|].
  unfold catching, and_then, tell, raise.
  destruct net as [e|r]; [now repeat split|].
  destruct (response_ok (status r)); now repeat split.
Qed.

(** X13, nothing to save: without a session identifier, or with an empty
    transcript, [handleSaveChat] issues no request; it alerts
    ["No chat history to save."] and logs nothing. *)
Theorem save_refuses_without_history (en : engine) (net : fetched) (p : props)
    (st : state) :
  session_absent_or_empty p st ->
  effects_of (handleSaveChat en net p st)
  = [Alerted (lit "No chat history to save.")].
Proof.
  unfold handleSaveChat.
  intros [[H | H] | H]; rewrite H; try reflexivity.
  now destruct (sessionId p) as [[|c id]|].
Qed.

(** [save_refuses_without_history] on a sample call: a session, but no
    message yet. *)
Lemma save_refuses_without_history_witness :
  effects_of (handleSaveChat sample_engine (json_response 200 (lit "{}"))
                Samples.session Samples.asking)
  = [Alerted (lit "No chat history to save.")].
Proof.
  apply save_refuses_without_history. right. reflexivity.
Defined.

(** What is sent as the citations of a message is never a falsy value. *)
Lemma value_or_array_truthy (en : engine) (x : option json) :
  truthy_value en (value_or en x (JArray [])) = true.
Proof.
  unfold value_or. destruct x as [v|]; [|reflexivity].
  destruct (truthy_value en v) eqn:E; [exact E | reflexivity].
Qed.

(** X14, what a save sends: with a session and a transcript, exactly one
    request goes to [/save-chat], with the session identifier and one
    entry for each message of the transcript, in order; an entry has the
    sender and the text of its message, and for citations the citations of
    the message when they are a truthy value and [[]] otherwise (so the
    question of the user, which has none, is sent with [[]]); the time
    stamp is not sent. *)
Theorem save_sends_the_transcript (en : engine) (net : fetched) (p : props)
    (st : state) (c : Z) (id : jsstring) :
  sessionId p = Some (c :: id) ->
  messages st <> [] ->
  exists entries,
    fetches (effects_of (handleSaveChat en net p st))
    = [mk_request (lit "http://localhost:8000/save-chat") (Some (lit "POST"))
         [(lit "Content-Type", lit "application/json");
          (lit "Authorization", lit "Bearer " ++ text_or_null (sessionToken p))]
         (Some (JObject [(lit "session_id", JString (c :: id));
                         (lit "messages", JArray entries)]))]
    /\ length entries = length (messages st)
    /\ forall i m,
         nth_error (messages st) i = Some m ->
         exists cited,
           nth_error entries i
           = Some (JObject [(lit "sender", JString (sender m));
                            (lit "text", JString (text m));
                            (lit "citations", cited)])
           /\ truthy_value en cited = true
           /\ (citations m = None -> cited = JArray [])
           /\ (forall v, citations m = Some v ->
                 cited = if truthy_value en v then v else JArray []).
Proof.
  intros Hsid Hms. exists (map (saved_message en) (messages st)).
  split; [|split].
  - unfold handleSaveChat. rewrite Hsid.
    destruct (messages st) as [|m ms] eqn:E; [easy|]. rewrite <- E.
    unfold catching, and_then, tell, raise.
    destruct net as [e|r]; [reflexivity|].
    destruct (response_ok (status r)); reflexivity.
  - apply length_map.
  - intros i m Hm. exists (value_or en (citations m) (JArray [])).
    rewrite nth_error_map, Hm. split; [reflexivity|].
    split; [apply value_or_array_truthy|].
    split; [now intros ->|]. now intros v ->.
Qed.

(** [save_sends_the_transcript] on a sample transcript. *)
Lemma save_sends_the_transcript_witness :
  let st := ChatBox.mk_state []
              [mk_message (lit "You") (lit "Why?") None 1;
               mk_message (lit "AI") (lit "Because.") (Some JNull) 2] false in
  exists entries,
    fetches (effects_of (handleSaveChat sample_engine
                           (json_response 200 (lit "{}")) Samples.session st))
    = [mk_request (lit "http://localhost:8000/save-chat") (Some (lit "POST"))
         [(lit "Content-Type", lit "application/json");
          (lit "Authorization",
           lit "Bearer " ++ text_or_null (sessionToken Samples.session))]
         (Some (JObject [(lit "session_id", JString (lit "s-1"));
                         (lit "messages", JArray entries)]))]
    /\ length entries = length (messages st)
    /\ forall i m,
         nth_error (messages st) i = Some m ->
         exists cited,
           nth_error entries i
           = Some (JObject [(lit "sender", JString (sender m));
                            (lit "text", JString (text m));
                            (lit "citations", cited)])
           /\ truthy_value sample_engine cited = true
           /\ (citations m = None -> cited = JArray [])
           /\ (forall v, citations m = Some v ->
                 cited = if truthy_value sample_engine v then v else JArray []).
Proof.
  apply (save_sends_the_transcript sample_engine _ Samples.session _ 115 (lit "-1")).
  - reflexivity.
  - discriminate.
Defined.

(** X15, how a save ends: after the request, an ok response gives the
    alert ["Chat saved successfully!"]; a response that is not ok gives
    ["Error saving chat: Failed to save chat: <status> <body>"], and a
    rejected request ["Error saving chat: <message>"], each logged once
    before the alert. *)
Theorem save_reports_its_result (en : engine) (net : fetched) (p : props)
    (st : state) (c : Z) (id : jsstring) :
  sessionId p = Some (c :: id) ->
  messages st <> [] ->
  let log := effects_of (handleSaveChat en net p st) in
  match net with
  | FetchFails e =>
      alerts log = [lit "Error saving chat: " ++ e]
      /\ console_errors log = [e]
  | FetchGives r =>
      if response_ok (status r) then
        alerts log = [lit "Chat saved successfully!"]
        /\ console_errors log = []
      else
        let e := lit "Failed to save chat: " ++ number_to_string (status r)
                   ++ lit " " ++ body_text r in
        alerts log = [lit "Error saving chat: " ++ e]
        /\ console_errors log = [e]
  end.
Proof.
  intros Hsid Hms. cbv zeta. unfold handleSaveChat. rewrite Hsid.
  destruct (messages st) as [|m ms]; [easy|].
  unfold catching, and_then, tell, raise.
  destruct net as [e|r]; [now split|].
  destruct (response_ok (status r)); now split.
Qed.

(** [save_reports_its_result] on a sample call: the server is down. *)
Lemma save_reports_its_result_witness :
  let st := ChatBox.mk_state [] [mk_message (lit "You") (lit "Why?") None 1] false in
  let log := effects_of (handleSaveChat sample_engine
                           (html_response 503 (lit "down")) Samples.session st) in
  alerts log = [lit "Error saving chat: Failed to save chat: 503 down"]
  /\ console_errors log = [lit "Failed to save chat: 503 down"].
Proof.
  apply (save_reports_its_result sample_engine
           (html_response 503 (lit "down")) Samples.session
           (ChatBox.mk_state [] [mk_message (lit "You") (lit "Why?") None 1] false)
           115 (lit "-1")).
  - reflexivity.
  - discriminate.
Defined.

(** X16, clearing then saving: a confirmed [clearChat] empties the
    transcript and leaves the question and the loading flag; a save that
    follows it sends nothing and alerts ["No chat history to save."]. A
    clear that is not confirmed changes nothing. *)
Theorem clear_then_save_sends_nothing (en : engine) (net : fetched) (p : props)
    (st : state) :
  let cleared := final_of (clearChat true st) in
  messages cleared = []
  /\ question cleared = question st
  /\ loading cleared = loading st
  /\ effects_of (handleSaveChat en net p cleared)
     = [Alerted (lit "No chat history to save.")]
  /\ clearChat false st = (Ok tt, st, []).
Proof.
  cbv zeta. unfold handleSaveChat, clearChat, modify, final_of. cbn.
  repeat split. now destruct (sessionId p) as [[|c id]|].
Qed.

End SaveChatProperties.

(* ===================================================================== *)
(** ** Properties of VoiceOutput *)
(* ===================================================================== *)

Module VoiceOutputProperties.
Import JS ChatBox Value Effect Config VoiceOutput.
Import ConfigProperties.

(** X17, speech always starts or reports: with no text [speakText] does
    nothing. Otherwise it never throws, sends one request with the first
    200 code units of the text, and then exactly one of three things has
    happened: the audio of the server was started; the browser was asked
    to speak the first 200 code units of the text; or, when the browser
    cannot speak, the playing flag is off and the error is
    ["Text-to-speech not supported"]. *)
Theorem speakText_speaks_or_reports (en : engine) (net : fetched)
    (supported : bool) (text : jsstring) (st : state) :
  let run := speakText en net supported text st in
  let log := effects_of run in
  (text = [] -> run = (Ok tt, st, []))
  /\ (text <> [] ->
      outcome_of run = Ok tt
      /\ fetches log = [speech_request text]
      /\ ((exists src,
             audio_sources log = [src] /\ utterances log = []
             /\ final_of run = mk_state true [])
          \/ (supported = true
              /\ audio_sources log = [] /\ utterances log = [spoken_part text]
              /\ final_of run = mk_state true [])
          \/ (supported = false
              /\ audio_sources log = [] /\ utterances log = []
              /\ final_of run
                 = mk_state false (lit "Text-to-speech not supported")))).
Proof.
  cbv zeta. split; [now intros ->|]. intros Hne.
  unfold speakText. destruct text as [|c t]; [easy|]. cbn [truthy negb].
  unfold and_then at 1 2, setIsPlaying, setError, modify, catching, and_then.
  answer_cases en net;
    try match goal with
        | |- context [read_member en ?d (lit "audio")] =>
            destruct (read_member en d (lit "audio")) as [?e|[?v|]];
            [|destruct (truthy_value en v)|]
        end;
    unfold browserTTS, tell, raise, and_then, setIsPlaying, setError, modify;
    destruct supported; cbn;
    (split; [reflexivity|]); (split; [reflexivity|]);
    first [ left; eexists; now repeat split
          | right; left; now repeat split
          | right; right; now repeat split ].
Qed.

(** X18, when the audio of the server is played: [speakText] starts an
    audio element exactly when the server answered with an ok JSON
    response whose body has a truthy [audio] member, and the source of
    the element is then ["data:audio/mp3;base64,"] followed by that
    member. *)
Theorem server_audio_is_played_iff (en : engine) (net : fetched)
    (supported : bool) (text : jsstring) (st : state) (src : jsstring) :
  In src (audio_sources (effects_of (speakText en net supported text st)))
  <-> text <> []
      /\ exists r data v,
           net = FetchGives r
           /\ says_json r = true
           /\ response_ok (status r) = true
           /\ JSON.parse (body_text r) = Some data
           /\ read_member en data (lit "audio") = ReadGives (Some v)
           /\ truthy_value en v = true
           /\ src = lit "data:audio/mp3;base64," ++ to_text en v.
Proof.
  split.
  - unfold speakText. destruct text as [|c t]; [intros []|]. cbn [truthy negb].
    intros Hin. split; [discriminate|]. revert Hin.
    unfold and_then at 1 2, setIsPlaying, setError, modify, catching, and_then.
    answer_cases en net;
      try match goal with
          | |- context [read_member en ?d (lit "audio")] =>
              destruct (read_member en d (lit "audio")) as [?e|[?v|]] eqn:?Hread;
              [|destruct (truthy_value en v) eqn:?Htruthy|]
          end;
      unfold browserTTS, tell, raise, and_then, setIsPlaying, setError, modify;
      destruct supported; cbn; try (intros []; fail);
      (intros [<- | []]); eexists _, _, _;
      repeat split; first [reflexivity | eassumption].
  - intros (Hne & r & data & v & -> & Hj & Hok & Hp & Hr & Ht & ->).
    unfold speakText. destruct text as [|c t]; [easy|]. cbn [truthy negb].
    unfold and_then at 1 2, setIsPlaying, setError, modify, catching, and_then.
    rewrite apiFetch_unfold. cbv zeta. rewrite Hj, Hp, Hok, Hr, Ht.
    cbn. now left.
Qed.

(** X19, speech is cut at 200 code units: whatever [speakText] or the
    fallback after an audio error asks the browser to speak is the first
    200 code units of the text: never longer than 200, and the whole text
    when the text is no longer than that. *)
Theorem speech_is_cut_at_200 (en : engine) (net : fetched) (supported : bool)
    (text : jsstring) (st : state) (u : jsstring) :
  In u (utterances (effects_of (speakText en net supported text st)))
  \/ In u (utterances (effects_of (audio_onerror supported text st))) ->
  u = firstn 200 text
  /\ (length u <= 200)%nat
  /\ ((length text <= 200)%nat -> u = text).
Proof.
  intros Hin.
  assert (Hu : u = firstn 200 text).
  { destruct Hin as [Hin | Hin]; revert Hin.
    - unfold speakText. destruct text as [|c t]; [intros []|]. cbn [truthy negb].
      unfold and_then at 1 2, setIsPlaying, setError, modify, catching, and_then.
      answer_cases en net;
        try match goal with
            | |- context [read_member en ?d (lit "audio")] =>
                destruct (read_member en d (lit "audio")) as [?e|[?v|]];
                [|destruct (truthy_value en v)|]
            end;
        unfold browserTTS, tell, raise, and_then, setIsPlaying, setError, modify;
        destruct supported; cbn; try (intros []; fail);
        now intros [<- | []].
    - unfold audio_onerror, browserTTS, and_then, tell, setIsPlaying, setError,
        modify.
      destruct supported; cbn; [now intros [<- | []] | intros []]. }
  subst u. split; [reflexivity|]. split.
  - rewrite length_firstn. lia.
  - intros Hlen. now apply firstn_all2.
Qed.

(** [speech_is_cut_at_200] on a sample call: the server is down and the
    browser speaks. *)
Lemma speech_is_cut_at_200_witness :
  let text := lit "Forty-two." in
  let u := lit "Forty-two." in
  u = firstn 200 text
  /\ (length u <= 200)%nat
  /\ ((length text <= 200)%nat -> u = text).
Proof.
  apply (speech_is_cut_at_200 sample_engine (FetchFails (lit "Failed to fetch"))
           true (lit "Forty-two.") (mk_state false [])).
  left. vm_compute. left. reflexivity.
Defined.

End VoiceOutputProperties.


(* ===================================================================== *)
(** ** Properties of the callers of apiFetch *)
(* ===================================================================== *)

Module DocumentAnalysisProperties.
Import JS ChatBox Value Effect Config DocumentAnalysis.
Import ConfigProperties.

(** X20, an analysis request always settles: without a session
    identifier [fetchAnalysis] sends nothing and only sets the error
    ["No session ID available"]. With one it never throws, sends exactly
    one request, a GET of [/document-analysis/<id>] without any
    [Authorization] header, and ends with the loading flag off. *)
Theorem fetchAnalysis_settles (en : engine) (net : fetched)
    (sessionId : option jsstring) (st : state) :
  let run := fetchAnalysis en net sessionId st in
  match sessionId with
  | Some (c :: id) =>
      outcome_of run = Ok tt
      /\ loading (final_of run) = false
      /\ fetches (effects_of run) = [analysis_request (c :: id)]
      /\ get_property (lit "Authorization") (headers (analysis_request (c :: id)))
         = None
  | _ =>
      run = (Ok tt,
             mk_state (analysis st) (loading st) (lit "No session ID available"),
             [])
  end.
Proof.
  cbv zeta. unfold fetchAnalysis.
  destruct sessionId as [[|c id]|]; try reflexivity.
  unfold ensuring, catching, and_then at 1 2 3, setLoading, setError, modify,
    and_then.
  answer_cases en net; unfold setAnalysis, tell, modify;
    try destruct (truthy _); now repeat split.
Qed.

(** X21, what an analysis request leaves: whenever the server answers
    with an ok JSON response whose body parses, the parsed body becomes
    the analysis, the error is empty and nothing is logged. Whenever it
    does not, [apiFetch] throws, the analysis shown before is kept, the
    error is a non-empty message (the message thrown, or
    ["Error loading document analysis"] when that is empty), and the
    failure was logged twice, by [apiFetch] and by [fetchAnalysis]. In
    both cases the loading flag ends off. *)
Theorem fetchAnalysis_stores_or_reports (en : engine) (net : fetched)
    (c : Z) (id : jsstring) (st : state) :
  let run := fetchAnalysis en net (Some (c :: id)) st in
  (forall v,
     answers_with net v ->
     final_of run = mk_state (Some v) false []
     /\ console_errors (effects_of run) = [])
  /\ ((forall v, ~ answers_with net v) ->
      exists e,
        outcome_of (apiFetch en net (lit "/document-analysis/" ++ c :: id)
                      no_options None st) = Throw e
        /\ final_of run
           = mk_state (analysis st) false
               (if truthy e then e else lit "Error loading document analysis")
        /\ error (final_of run) <> []
        /\ console_errors (effects_of run) = [e; e]).
Proof.
  cbv zeta. unfold fetchAnalysis.
  unfold ensuring, catching, and_then at 1 2 3, setLoading, setError, modify,
    and_then.
  rewrite !apiFetch_unfold. cbv zeta.
  assert (Hmessage : forall e : jsstring,
            (if truthy e then e else lit "Error loading document analysis")
            <> []) by (intros [|u t]; discriminate).
  assert (Hfails : forall e req log,
            (forall v,
               answers_with net v ->
               final_of (Ok tt,
                         mk_state (analysis st) false
                           (if truthy e then e
                            else lit "Error loading document analysis"),
                         log)
               = mk_state (Some v) false []
               /\ console_errors log = []) ->
            (forall v,
               answers_with net v ->
               final_of (Ok tt,
                         mk_state (analysis st) false
                           (if truthy e then e
                            else lit "Error loading document analysis"),
                         log)
               = mk_state (Some v) false []
               /\ console_errors log = [])
            /\ ((forall v, ~ answers_with net v) ->
                exists e',
                  outcome_of (Throw e, st,
                              [Fetched req; Logged (lit "API fetch error:") e])
                  = @Throw json e'
                  /\ mk_state (analysis st) false
                       (if truthy e then e
                        else lit "Error loading document analysis")
                     = mk_state (analysis st) false
                         (if truthy e' then e'
                          else lit "Error loading document analysis")
                  /\ (if truthy e then e
                      else lit "Error loading document analysis") <> []
                  /\ [e; e] = [e'; e'])).
  { intros e req log Hnever. split; [exact Hnever|].
    intros _. exists e. repeat split. apply Hmessage. }
  destruct net as [e|r].
  - unfold tell, modify. apply Hfails.
    intros v (r & Hnet & _). discriminate.
  - destruct (says_json r) eqn:Hjson.
    + destruct (JSON.parse (body_text r)) as [data|] eqn:Hparse.
      * destruct (response_ok (status r)) eqn:Hok.
        -- unfold setAnalysis, tell, modify. cbn. split.
           ++ intros v (r' & [= <-] & _ & _ & Hv).
              rewrite Hparse in Hv. injection Hv as <-. now split.
           ++ intros Hnever. exfalso. apply (Hnever data).
              now exists r.
        -- assert (Hnever : forall v, ~ answers_with (FetchGives r) v).
           { intros v (r' & [= <-] & _ & Hok' & _). congruence. }
           destruct (read_member en data (lit "error")) as [e|[w|]];
             [|destruct (truthy_value en w)|];
             unfold tell, modify; apply Hfails;
             intros v Hv; now destruct (Hnever v).
      * unfold tell, modify. apply Hfails.
        intros v (r' & [= <-] & _ & _ & Hv). congruence.
    + unfold tell, modify. apply Hfails.
      intros v (r' & [= <-] & Hjson' & _). congruence.
Qed.

(** [fetchAnalysis_stores_or_reports] on a good answer and on a page
    that is not JSON. *)
Lemma fetchAnalysis_stores_or_reports_witness :
  let good := json_response 200 (litq "{'pages':[1,2]}") in
  let page := html_response 502 (lit "<html>Bad Gateway</html>") in
  let st := mk_state (Some JNull) false (lit "old") in
  let run net := fetchAnalysis sample_engine net (Some (lit "s-1")) st in
  final_of (run good)
  = mk_state (Some (JObject [(lit "pages", JArray [JNumber 1 0; JNumber 2 0])]))
      false []
  /\ console_errors (effects_of (run good)) = []
  /\ exists e,
       final_of (run page)
       = mk_state (Some JNull) false
           (if truthy e then e else lit "Error loading document analysis")
       /\ console_errors (effects_of (run page)) = [e; e].
Proof.
  cbv zeta.
  destruct (proj1 (fetchAnalysis_stores_or_reports sample_engine
                     (json_response 200 (litq "{'pages':[1,2]}"))
                     115 (lit "-1") (mk_state (Some JNull) false (lit "old")))
              (JObject [(lit "pages", JArray [JNumber 1 0; JNumber 2 0])]))
    as [Hfinal Hlog].
  { eexists. repeat split; vm_compute; reflexivity. }
  destruct (proj2 (fetchAnalysis_stores_or_reports sample_engine
                     (html_response 502 (lit "<html>Bad Gateway</html>"))
                     115 (lit "-1") (mk_state (Some JNull) false (lit "old"))))
    as (e & _ & Hkept & _ & Htwice).
  { intros v (r & [= <-] & Hjson & _). vm_compute in Hjson. discriminate. }
  split; [exact Hfinal | split; [exact Hlog|]].
  exists e. split; [exact Hkept | exact Htwice].
Defined.

End DocumentAnalysisProperties.

Module UserSessionsProperties.
Import JS ChatBox Value Effect Config UserSessions.
Import ConfigProperties.

(** X22, a request for the saved sessions always settles: without a user
    or without a token [loadSessions] sends nothing and only sets the
    error ["User not authenticated"]. With both it never throws, sends
    exactly one request, a GET of [/user-sessions/<user>] that carries
    [Authorization: Bearer <token>], and ends with the loading flag
    off. *)
Theorem loadSessions_settles (en : engine) (net : fetched)
    (userId sessionToken : option jsstring) (st : state) :
  let run := loadSessions en net userId sessionToken st in
  match userId, sessionToken with
  | Some (c :: id), Some (d :: token) =>
      outcome_of run = Ok tt
      /\ loading (final_of run) = false
      /\ fetches (effects_of run) = [sessions_request (c :: id) (d :: token)]
      /\ get_property (lit "Authorization")
           (headers (sessions_request (c :: id) (d :: token)))
         = Some (lit "Bearer " ++ d :: token)
  | _, _ =>
      run = (Ok tt,
             mk_state (sessions st) (loading st) (lit "User not authenticated"),
             [])
  end.
Proof.
  cbv zeta. unfold loadSessions.
  destruct userId as [[|c id]|]; try reflexivity.
  destruct sessionToken as [[|d token]|]; try reflexivity.
  unfold ensuring, catching, and_then at 1 2 3, setLoading, setError, modify,
    and_then.
  answer_cases en net;
    try match goal with
        | |- context [read_member en ?x (lit "sessions")] =>
            destruct (read_member en x (lit "sessions")) as [?e|?x]
        end;
    unfold setSessions, tell, raise, modify;
    try destruct (truthy _); now repeat split.
Qed.

(** X23, what a request for the saved sessions leaves. Whenever the
    server answers with an ok JSON response whose body parses to a value
    that is not [null], the sessions become the [sessions] member of the
    body when it is truthy and [[]] otherwise, so never a falsy value;
    the error is empty and nothing is logged. Whenever the body parses to
    [null], reading [data.sessions] throws: the sessions shown before are
    kept, the error is the message thrown and it is logged once, by
    [loadSessions]. Whenever the server does not answer with such a
    response, [apiFetch] throws: the sessions shown before are kept, the
    error is the message thrown and it is logged twice, by [apiFetch] and
    by [loadSessions]. An empty message is replaced by
    ["Error loading saved sessions"], and the loading flag ends off in
    every case. *)
Theorem loadSessions_stores_or_reports (en : engine) (net : fetched)
    (c d : Z) (id token : jsstring) (st : state) :
  let run := loadSessions en net (Some (c :: id)) (Some (d :: token)) st in
  (forall data x,
     answers_with net data ->
     read_member en data (lit "sessions") = ReadGives x ->
     final_of run = mk_state (value_or en x (JArray [])) false []
     /\ truthy_value en (sessions (final_of run)) = true
     /\ console_errors (effects_of run) = [])
  /\ (forall data e,
        answers_with net data ->
        read_member en data (lit "sessions") = ReadThrows e ->
        data = JNull
        /\ final_of run
           = mk_state (sessions st) false
               (if truthy e then e else lit "Error loading saved sessions")
        /\ error (final_of run) <> []
        /\ console_errors (effects_of run) = [e])
  /\ ((forall v, ~ answers_with net v) ->
      exists e,
        outcome_of
          (apiFetch en net (lit "/user-sessions/" ++ c :: id)
             (mk_options None
                (Some [(lit "Authorization", lit "Bearer " ++ d :: token)])
                None)
             None st) = Throw e
        /\ final_of run
           = mk_state (sessions st) false
               (if truthy e then e else lit "Error loading saved sessions")
        /\ error (final_of run) <> []
        /\ console_errors (effects_of run) = [e; e]).
Proof.
  cbv zeta. unfold loadSessions.
  unfold ensuring, catching, and_then at 1 2 3, setLoading, setError, modify,
    and_then.
  rewrite !apiFetch_unfold. cbv zeta.
  assert (Hmessage : forall e : jsstring,
            (if truthy e then e else lit "Error loading saved sessions")
            <> []) by (intros [|u t]; discriminate).
  assert (Hnull : forall data e,
            read_member en data (lit "sessions") = ReadThrows e -> data = JNull)
    by (intros [] e; cbn; congruence).
  destruct net as [e|r].
  - unfold tell, modify. cbn.
    split; [intros data x (r & Hnet & _); discriminate|].
    split; [intros data e' (r & Hnet & _); discriminate|].
    intros _. exists e. repeat split. apply Hmessage.
  - assert (Hthrows : forall e req,
              (forall v, ~ answers_with (FetchGives r) v) ->
              forall run : outcome unit * state * list io,
                run = (Ok tt,
                       mk_state (sessions st) false
                         (if truthy e then e
                          else lit "Error loading saved sessions"),
                       [Fetched req; Logged (lit "API fetch error:") e;
                        Logged (lit "Error loading sessions:") e]) ->
                (forall data x,
                   answers_with (FetchGives r) data ->
                   read_member en data (lit "sessions") = ReadGives x ->
                   final_of run = mk_state (value_or en x (JArray [])) false []
                   /\ truthy_value en (sessions (final_of run)) = true
                   /\ console_errors (effects_of run) = [])
                /\ (forall data e',
                      answers_with (FetchGives r) data ->
                      read_member en data (lit "sessions") = ReadThrows e' ->
                      data = JNull
                      /\ final_of run
                         = mk_state (sessions st) false
                             (if truthy e' then e'
                              else lit "Error loading saved sessions")
                      /\ error (final_of run) <> []
                      /\ console_errors (effects_of run) = [e'])
                /\ ((forall v, ~ answers_with (FetchGives r) v) ->
                    exists e',
                      outcome_of (Throw e, st,
                                  [Fetched req;
                                   Logged (lit "API fetch error:") e])
                      = @Throw json e'
                      /\ final_of run
                         = mk_state (sessions st) false
                             (if truthy e' then e'
                              else lit "Error loading saved sessions")
                      /\ error (final_of run) <> []
                      /\ console_errors (effects_of run) = [e'; e'])).
    { intros e req Hnever run ->.
      split; [intros data x Hdata; now destruct (Hnever data)|].
      split; [intros data e' Hdata; now destruct (Hnever data)|].
      intros _. exists e. cbn. repeat split. apply Hmessage. }
    destruct (says_json r) eqn:Hjson.
    + destruct (JSON.parse (body_text r)) as [data|] eqn:Hparse.
      * destruct (response_ok (status r)) eqn:Hok.
        -- assert (Hdata : forall v, answers_with (FetchGives r) v -> v = data).
           { intros v (r' & [= <-] & _ & _ & Hv). congruence. }
           assert (Hanswers : answers_with (FetchGives r) data)
             by (now exists r).
           destruct (read_member en data (lit "sessions")) as [e|x] eqn:Hread;
             unfold setSessions, tell, raise, modify.
           ++ split; [intros v x Hv; rewrite (Hdata v Hv); congruence|].
              split; [|intros Hnever; now destruct (Hnever data)].
              intros v e' Hv. rewrite (Hdata v Hv), Hread. intros [= <-].
              split; [now apply (Hnull data e)|]. cbn. repeat split.
              apply Hmessage.
           ++ split; [|split; [|intros Hnever; now destruct (Hnever data)]].
              ** intros v x' Hv. rewrite (Hdata v Hv), Hread. intros [= <-].
                 cbn. repeat split.
                 apply SaveChatProperties.value_or_array_truthy.
              ** intros v e' Hv. rewrite (Hdata v Hv). congruence.
        -- assert (Hnever : forall v, ~ answers_with (FetchGives r) v).
           { intros v (r' & [= <-] & _ & Hok' & _). congruence. }
           destruct (read_member en data (lit "error")) as [e|[w|]];
             [|destruct (truthy_value en w)|];
             unfold tell, modify; eapply Hthrows; try exact Hnever;
             reflexivity.
      * unfold tell, modify. eapply Hthrows; [|reflexivity].
        intros v (r' & [= <-] & _ & _ & Hv). congruence.
    + unfold tell, modify. eapply Hthrows; [|reflexivity].
      intros v (r' & [= <-] & Hjson' & _). congruence.
Qed.

(** [loadSessions_stores_or_reports] on an answer with two sessions, on
    the answer [null] and on a refused request. *)
Lemma loadSessions_stores_or_reports_witness :
  let listed := json_response 200 (litq "{'sessions':['a','b']}") in
  let nothing := json_response 200 (lit "null") in
  let refused := json_response 401 (litq "{'error':'Invalid session'}") in
  let st := mk_state (JArray [JString (lit "old")]) false [] in
  let run net :=
    loadSessions sample_engine net (Some (lit "u-1")) (Some (lit "t0")) st in
  final_of (run listed)
  = mk_state (JArray [JString (lit "a"); JString (lit "b")]) false []
  /\ (exists e,
        final_of (run nothing)
        = mk_state (JArray [JString (lit "old")]) false
            (if truthy e then e else lit "Error loading saved sessions")
        /\ console_errors (effects_of (run nothing)) = [e])
  /\ (exists e,
        final_of (run refused)
        = mk_state (JArray [JString (lit "old")]) false
            (if truthy e then e else lit "Error loading saved sessions")
        /\ console_errors (effects_of (run refused)) = [e; e]).
Proof.
  cbv zeta.
  pose (st := mk_state (JArray [JString (lit "old")]) false []).
  destruct (proj1 (loadSessions_stores_or_reports sample_engine
                     (json_response 200 (litq "{'sessions':['a','b']}"))
                     117 116 (lit "-1") (lit "0") st)
              (JObject [(lit "sessions",
                         JArray [JString (lit "a"); JString (lit "b")])])
              (Some (JArray [JString (lit "a"); JString (lit "b")])))
    as (Hstored & _).
  { eexists. repeat split; vm_compute; reflexivity. }
  { reflexivity. }
  destruct (proj1 (proj2 (loadSessions_stores_or_reports sample_engine
                            (json_response 200 (lit "null"))
                            117 116 (lit "-1") (lit "0") st))
              JNull
              (null_read_message sample_engine (lit "sessions")))
    as (_ & Hkept & _ & Honce).
  { eexists. repeat split; vm_compute; reflexivity. }
  { reflexivity. }
  destruct (proj2 (proj2 (loadSessions_stores_or_reports sample_engine
                            (json_response 401
                               (litq "{'error':'Invalid session'}"))
                            117 116 (lit "-1") (lit "0") st)))
    as (e & _ & Hkept' & _ & Htwice).
  { intros v (r & [= <-] & _ & Hok & _). vm_compute in Hok. discriminate. }
  split; [exact Hstored|]. split.
  - exists (null_read_message sample_engine (lit "sessions")).
    split; [exact Hkept | exact Honce].
  - exists e. split; [exact Hkept' | exact Htwice].
Defined.

End UserSessionsProperties.

(* ===================================================================== *)
(** ** App.js: what a reload of the page restores *)
(* ===================================================================== *)

Module AppProperties.
Import JS ChatBox Value App.
Import ConfigProperties.

Lemma get_remove_same (k : jsstring) (items : storage) :
  get_property k (remove_item k items) = None.
Proof.
  induction items as [|[k' v] items IH]; cbn [remove_item get_property].
  - reflexivity.
  - destruct (string_eqb k' k) eqn:E; [exact IH|].
    cbn [get_property]. now rewrite E.
Qed.

Lemma get_remove_other (k k' : jsstring) (items : storage) :
  string_eqb k' k = false ->
  get_property k (remove_item k' items) = get_property k items.
Proof.
  intros Hne.
  induction items as [|[k0 v] items IH]; cbn [remove_item get_property].
  - reflexivity.
  - destruct (string_eqb k0 k') eqn:E.
    + apply string_eqb_eq in E. subst k0. now rewrite Hne.
    + cbn [get_property]. now rewrite IH.
Qed.

(** X24, handleLogin and the effect of lines 19-26: a login survives a
    reload of the page, as text.  Whatever the state and the storage
    were, after [handleLogin(token, userId)] a newly mounted [App] holds
    in [sessionToken] and in [user] the strings written by [setItem],
    provided neither is empty: a numeric user id comes back as its
    decimal text, and a field the server left out comes back as the
    string "undefined". *)
Theorem login_survives_reload (en : engine) (token userId : value) (st : state) :
  value_text en token <> [] ->
  value_text en userId <> [] ->
  let reloaded := mount (localStorage (handleLogin en token userId st)) in
  sessionToken reloaded = Some (JString (value_text en token))
  /\ user reloaded = Some (JString (value_text en userId)).
Proof.
  intros Ht Hu reloaded. subst reloaded.
  unfold mount, store_theme, restore_session, handleLogin.
  cbn [localStorage darkMode sessionId user sessionToken activeTab].
  rewrite get_set_same.
  rewrite get_set_other by reflexivity.
  rewrite get_set_same.
  destruct (value_text en token) as [|c t]; [contradiction|].
  destruct (value_text en userId) as [|d u]; [contradiction|].
  cbn [localStorage darkMode sessionId user sessionToken activeTab].
  now split.
Qed.

(** [login_survives_reload] on a login whose answer had a token and no
    user id. *)
Lemma login_survives_reload_witness :
  let reloaded :=
    mount (localStorage
             (handleLogin Config.sample_engine (Some (JString (lit "t0"))) None
                (mount []))) in
  sessionToken reloaded = Some (JString (lit "t0"))
  /\ user reloaded = Some (JString (lit "undefined")).
Proof.
  apply (login_survives_reload Config.sample_engine
           (Some (JString (lit "t0"))) None (mount []));
    cbn; discriminate.
Defined.

(** X25, handleLogout: a logout is not undone by a reload.  Whatever the
    state and the storage were, [handleLogout] leaves [user],
    [sessionToken] and [sessionId] at [null], and a newly mounted [App]
    on the storage it leaves has [user] and [sessionToken] at [null]
    too; the stored theme is untouched. *)
Theorem logout_forgets_the_session (st : state) :
  let out := handleLogout st in
  let reloaded := mount (localStorage out) in
  user out = null /\ sessionToken out = null /\ sessionId out = null
  /\ user reloaded = null /\ sessionToken reloaded = null
  /\ darkMode reloaded
     = match get_property (lit "theme") (localStorage st) with
       | Some theme => string_eqb theme (lit "dark")
       | None => false
       end.
Proof.
  cbv zeta.
  unfold mount, store_theme, restore_session, handleLogout.
  cbn [localStorage darkMode sessionId user sessionToken activeTab].
  rewrite (get_remove_other (lit "sessionToken") (lit "userId")) by reflexivity.
  rewrite get_remove_same.
  rewrite (get_remove_other (lit "theme") (lit "userId")) by reflexivity.
  rewrite (get_remove_other (lit "theme") (lit "sessionToken")) by reflexivity.
  cbn [localStorage darkMode sessionId user sessionToken activeTab].
  repeat split; reflexivity.
Qed.

(** X26, the theme button and the effect of lines 29-38: the theme
    survives a reload.  After the button is pressed and the effect has
    run, a newly mounted [App] starts in the mode just chosen, whatever
    the storage held before. *)
Theorem theme_survives_reload (st : state) :
  darkMode (mount (localStorage (toggle_theme st))) = negb (darkMode st).
Proof.
  unfold toggle_theme, mount, store_theme, restore_session.
  cbn [localStorage darkMode sessionId user sessionToken activeTab].
  rewrite get_set_same.
  destruct (get_property (lit "sessionToken") _) as [[|c t]|];
    try destruct (get_property (lit "userId") _) as [[|d u]|];
    cbn [localStorage darkMode sessionId user sessionToken activeTab];
    now destruct (darkMode st).
Qed.

End AppProperties.
